(* ===== verification/_CoqProject ===== *)
-Q . S2P
Prelude.v
RustStr.v
GlobStarPattern.v
DestinationPathTemplate.v
CompileTermination.v
SourcePathPattern.v
Mmv.v
RenameSpec.v
MainPaths.v
