(* ===== verification/Prelude.v ===== *)
(** * A verification development of [mmv] (multi-mv)

    [mmv] renames every file matching a source glob to a destination built
    from a template, e.g. [mmv 'griffindor/H*y' 'expelled/H#1y-#1'].  The
    Rust sources have three library components and a command-line shell:

    - [src/lib/src/glob_star_pattern.rs]: [GlobStarPattern], a glob where
      only [*] is special.  [From<&str>] splits the pattern on ['*'] into
      literal blocks, [wildcards_number] is their count minus one,
      [match_string] matches a file name greedily (leftmost occurrence of
      every middle block, suffix check for the last block) and returns the
      captured fragments, [Display] joins the blocks with ['*'].
    - [src/lib/src/destination_path_template.rs]: [DestinationPathTemplate].
      [compile] splits the template at its last ['/'], scans the file name
      for markers [#k] (longest [k <= max_marker_index] wins) in a [while]
      loop that slices the name at byte offsets (a panic when an offset is
      not a character boundary), and [substitute] replaces marker [k] by the [k]-th fragment,
      panicking when there are not enough fragments.
    - [src/lib/src/source_path_pattern.rs]: [SourcePathPattern].  [from_str]
      splits at the last ['/'], rejects a ['*'] in the directory part, and
      compiles the file-name glob; [matching_files] lists the directory and
      keeps the regular files whose name the glob matches, with their
      fragments; [Display] prints directory and glob.
    - [src/src/main.rs]: the shell, which compiles the template with
      [max_marker_index = wildcards_number] (an error beyond 255), computes
      every source/destination pair, refuses an empty match set and a
      missing target directory, and renames each file unless the
      destination exists and [--force] is absent.

    ** Files of this development

    - [Prelude.v] (this file): the [mmv_scope] with a string notation for
      [str := list ascii] (Rust's UTF-8 [&str] as its byte sequence), the
      proof automation ([mmv] hint database, tactics), generic list and
      option lemmas, and the interface [WildcardMatcher] /
      [WildcardMatcherLaws] through which the source-path driver uses the
      glob matcher.
    - [RustStr.v]: the methods of Rust's [str], [Path] and integer
      formatting that the sources call ([strip_prefix], [strip_suffix],
      [find], [rfind], [split], [join], [split_at], [Path::join],
      [u8::to_string], [is_char_boundary]), with their specification
      lemmas, and [utf8], the byte structure of a valid UTF-8 [&str].  These model the
      standard library, not code of the repository, and are not in the map.
    - [GlobStarPattern.v]: Module [GlobStarPattern] (the record, [from],
      [wildcards_number], [match_string], [to_string]).
    - [DestinationPathTemplate.v]: Module [DestinationPathTemplate]
      ([compile] as a fuelled loop with the source's exact offset update
      and the slice panic at a non-boundary offset, [substitute]; panics
      are values of the type [panic]).
    - [CompileTermination.v]: Module [CompileTermination], the analysis of
      [compile]'s loop: [scan], the same loop with the offset update the
      code intends ([current_offset + hashtag_position + 1]),
      [compile_ref] built on it, and [double_miss], which decides whether
      [scan] meets two literal ['#'] between two markers.
    - [SourcePathPattern.v]: Section-parametric over [WildcardMatcher];
      [from_str], [wildcards_number], [matching_files] over an abstract
      directory listing with the source's three I/O error exits,
      [to_string].
    - [Mmv.v]: Module [Mmv], the shell [main.rs] over the file-system
      interface [FileSystemOps] / [FileSystemLaws] (current directory,
      directory listing, [exists], [rename]; the laws relate them to an
      abstract set of files).  [CLIArgs] is the clap structure, [run] is
      [main]'s body step by step (wildcard bound, [compile], current
      directory, [matching_files], [substitute] for every match, the empty
      and missing-directory checks, then [rename_loop], the [for] loop with
      its skip / failure / success outcomes), and [main] its exit code.
      [TestFs] is a concrete in-memory file system that implements the
      interface, and Module [IntegrationTests] replays the scenarios of
      [src/tests/test_main.rs] on it (a sanity check, as are the
      [Tests] modules of the library files).
    - [RenameSpec.v]: Module [RenameSpec], an abstract specification of
      the rename loop: [batch_step], a nondeterministic state machine over
      the set of files (skip / failed / done), and its runs [batch_run]
      ([rtc]).
    - [MainPaths.v]: Module [MainPaths], where the sources and
      destinations of [main] lie, under the operating system's guarantee
      that listed names contain no ['/'] ([listing_names_ok], which the
      test file system satisfies).

    ** What is proved

    - Glob: round trips [to_string (from s) = s] and [from (to_string p) = p];
      [wildcards_number] counts the stars; [match_string] is sound
      (captures count = wildcards, the name is the blocks interleaved with
      the captures), returns the leftmost decomposition (each capture the
      shortest possible given the earlier ones), and is complete (the
      greedy matcher never misses a match).
    - Template: the compile loop's result reassembles the template
      (round trip), markers are in [1..max_marker_index], and
      [substitute] fails exactly when a marker exceeds the fragment count;
      on a compiled template its only panic is an index out of bounds,
      with the index below [max_marker_index].
    - Termination of [compile], exactly: on a valid UTF-8 name the loop
      returns iff no two consecutive ['#'] of the file name are both
      literal (start no marker in range); on such a pair it revisits
      offsets forever, for every fuel, unless one of them falls inside a
      multi-byte character, where the slice panics (["é##"]); on an ASCII
      name it hangs exactly then.  When it returns, [compile] equals
      [compile_ref] (equivalence with the intended scan), and [scan]
      itself always terminates.
    - Source pattern: directory rejection, round trip of [from_str] and
      [to_string], and that every match has [wildcards_number] fragments,
      proved against the matcher interface, with its I/O error exits.
    - Shell: [main] never reaches [substitute]'s panic (the template is
      compiled with exactly the number of wildcards the sources are
      matched with); without [--force] no file that exists before the
      run is lost by the renames; the exit code is 1 exactly when a
      rename failed; the error exits for too many wildcards and for an
      empty match set; [main] hangs or panics in [compile] exactly on an
      accepted source pattern with at most 255 wildcards and a destination
      file name with a double literal ['#'], and terminates without that
      panic on every other input.  All proved
      against [FileSystemLaws].
    - Rename loop: every successful run of [main] is a run of the
      batch-rename machine (refinement), and by rule induction on runs
      [main] leaves every path that is neither a source nor a destination
      of its pairs as it was (frame).
    - Paths: every rename moves [dir.join(name)] to [dir'.join(name')],
      with [dir], [dir'] the two patterns up to their last ['/'] and
      single-component names; the name can still be [".."] (the example
      [dot_dot_destination]).
    - As sanity checks, not properties: every unit test of the three
      library files and the integration tests of [test_main.rs] evaluate
      to true on the model by [vm_compute].

    ** Fuel
    [DestinationPathTemplate.compile_loop] takes fuel because the Rust loop
    does not terminate on some inputs.  [compile] runs it with
    [length filename + 2] steps.  This is enough: a terminating run takes
    the steps of [scan], and each step of [scan] either drops a marker (at
    least two bytes) or moves the offset past a ['#'], so [scan] needs at
    most [length filename + 1] steps ([CompileTermination.scan_total],
    [compile_loop_fuel_enough]).  On an input where the Rust loop hangs,
    [compile_loop] returns [None] for every fuel, not only this one
    ([compile_loop_double_miss]).

    [run] returns [None] exactly when [compile] runs out of fuel, i.e.
    on the inputs where the Rust program hangs, and [CompilePanic] where
    its slice panics (exit code 101).

    ** Not modelled
    The command-line parser (clap) beyond its result record, and coloured
    output (the per-file messages are kept as an outcome log).  Names are
    byte lists; the UTF-8 validity of a [&str] is the predicate [utf8],
    assumed where a theorem needs it (the template is a [String]
    argument), and [file_name().to_str()] failing is an explicit flag.
    [utf8] checks where characters start and end, not overlong forms or
    surrogates, which do not move character boundaries.  [lib.rs] only
    re-exports.  A file system is the abstract interface of [Mmv.v], not
    the operating system's. *)

From Stdlib Require Export Ascii String.
From stdpp Require Export base list options strings sets gmap.

(** ** Strings as byte lists, with literals *)

Declare Scope mmv_scope.
Delimit Scope mmv_scope with mmv.

(** Rust's [&str]/[String] as the list of its bytes. *)
Abbreviation str := (list ascii).

Definition str_of_bytes (l : list Byte.byte) : str := map ascii_of_byte l.
Definition bytes_of_str (l : str) : list Byte.byte := map byte_of_ascii l.

String Notation str str_of_bytes bytes_of_str : mmv_scope.
#[global] Open Scope mmv_scope.

Definition star_char : ascii := "*"%char.
Definition slash_char : ascii := "/"%char.
Definition hash_char : ascii := "#"%char.

(** ** Automation *)

Create HintDb mmv discriminated.
Create Rewrite HintDb mmv_rw.

(** [invc H] inverts [H] and cleans up. *)
Ltac invc H := inversion H; subst; clear H.

(** Destruct every [_ ≫= _ = Some _] and [_ <$> _ = Some _] hypothesis and
    every [Some]/[None] equation. *)
Ltac destruct_opt :=
  repeat match goal with
  | H : _ ≫= _ = Some _ |- _ =>
      apply bind_Some in H; destruct H as (? & ? & ?)
  | H : _ <$> _ = Some _ |- _ =>
      apply fmap_Some in H; destruct H as (? & ? & ?)
  | H : Some _ = Some _ |- _ => injection H as H
  | H : None = Some _ |- _ => discriminate H
  | H : Some _ = None |- _ => discriminate H
  end; subst.

(** ** Generic lemmas on lists and options *)

Section ListLemmas.
Context {A : Type}.
Implicit Types (l k : list A) (x : A).

Lemma take_drop_split l n : l = take n l ++ drop n l.
Proof. by rewrite take_drop. Qed.

Lemma app_cons_assoc l x k : l ++ x :: k = (l ++ [x]) ++ k.
Proof. by rewrite <-app_assoc. Qed.

Lemma elem_of_map_1 {B} (f : A -> B) l y : y ∈ map f l -> exists x, y = f x /\ x ∈ l.
Proof.
  induction l as [|x l IH]; simpl; [set_solver|]. rewrite elem_of_cons.
  intros [->|(x' & -> & Hx')%IH]; [exists x|exists x']; set_solver.
Qed.

Lemma elem_of_map_2 {B} (f : A -> B) l x : x ∈ l -> f x ∈ map f l.
Proof. induction l as [|y l IH]; simpl; [set_solver|]. rewrite !elem_of_cons. naive_solver. Qed.

End ListLemmas.

(** [fill [b0; ..; bn] [c1; ..; cn] = b0 ++ c1 ++ b1 ++ ... ++ cn ++ bn]: the
    string with fragment [ci] put between blocks [b(i-1)] and [bi].  Both a
    glob instance and a rendered template are of this shape. *)
Fixpoint fill (blocks fragments : list str) : str :=
  match blocks, fragments with
  | b :: bs, c :: cs => b ++ c ++ fill bs cs
  | b :: _, [] => b
  | [], _ => []
  end.

(** Closing a block with a fragment and a new block. *)
Lemma fill_snoc (bs : list str) (b r : str) (cs : list str) (c : str) :
  length cs = length bs ->
  fill (bs ++ [b; r]) (cs ++ [c]) = fill (bs ++ [b ++ c ++ r]) cs.
Proof.
  revert cs. induction bs as [|b' bs IH]; intros [|c' cs] Hlen; simpl in *; try lia.
  - done.
  - rewrite IH by lia. done.
Qed.

(** Extending the first block extends the filled string. *)
Lemma fill_app_head (x y : str) (bs cs : list str) : fill ((x ++ y) :: bs) cs = x ++ fill (y :: bs) cs.
Proof. destruct bs, cs; simpl; by rewrite <-?app_assoc. Qed.

(** Every byte of [fill bs cs] comes from a block or a fragment ... *)
Lemma fill_not_elem (x : ascii) (bs cs : list str) :
  Forall (fun b => x ∉ b) bs -> Forall (fun c => x ∉ c) cs -> x ∉ fill bs cs.
Proof.
  revert cs. induction bs as [|b bs IH]; intros cs Hb Hc; [destruct cs; set_solver|].
  apply Forall_cons in Hb as [Hb Hbs]. destruct cs as [|c cs]; [done|].
  apply Forall_cons in Hc as [Hc Hcs]. specialize (IH cs Hbs Hcs). simpl. set_solver.
Qed.

(** ... and every byte of a placed block or fragment is in it. *)
Lemma fill_elem_block (x : ascii) (bs cs : list str) (b : str) :
  length bs <= S (length cs) -> b ∈ bs -> x ∈ b -> x ∈ fill bs cs.
Proof.
  revert cs. induction bs as [|b' bs IH]; intros cs Hl Hb Hx; [set_solver|].
  apply elem_of_cons in Hb as [->|Hb]; destruct cs as [|c cs]; simpl in *; [set_solver..| |].
  - destruct bs; [set_solver|simpl in Hl; lia].
  - specialize (IH cs ltac:(lia) Hb Hx). set_solver.
Qed.

Lemma fill_elem_fragment (x : ascii) (bs cs : list str) (c : str) :
  length cs < length bs -> c ∈ cs -> x ∈ c -> x ∈ fill bs cs.
Proof.
  revert cs. induction bs as [|b bs IH]; intros cs Hl Hc Hx; [simpl in Hl; lia|].
  destruct cs as [|c' cs]; [set_solver|]. simpl in *.
  apply elem_of_cons in Hc as [->|Hc]; [set_solver|].
  specialize (IH cs ltac:(lia) Hc Hx). set_solver.
Qed.

Lemma drop_app_length_plus {A} (l t : list A) j : drop (length l + j) (l ++ t) = drop j t.
Proof. by rewrite <-drop_drop, drop_app_length. Qed.

#[export] Hint Rewrite @app_assoc @app_nil_r @length_app : mmv_rw.

(** ** Results: Rust's [Result<T, E>], with [≫=] and [x ← m; k] *)

Inductive result (E A : Type) : Type :=
  | Ok (a : A)
  | Err (e : E).
Arguments Ok {E A} a.
Arguments Err {E A} e.

#[export] Instance result_ret E : MRet (result E) := fun A a => Ok a.
#[export] Instance result_bind E : MBind (result E) :=
  fun A B f r => match r with Ok a => f a | Err e => Err e end.

#[export] Instance result_eq_dec {E A} `{!EqDecision E, !EqDecision A} : EqDecision (result E A).
Proof. solve_decision. Defined.

Lemma result_bind_Ok {E A B} (f : A -> result E B) (r : result E A) (b : B) :
  (r ≫= f) = Ok b <-> exists a, r = Ok a /\ f a = Ok b.
Proof. destruct r; simpl; split; naive_solver. Qed.

(** [Option::ok_or]: an absent value becomes the error [e]. *)
Definition ok_or {E A} (o : option A) (e : E) : result E A :=
  match o with Some a => Ok a | None => Err e end.

(** ** The interface between the source-path driver and the glob matcher

    [SourcePathPattern] uses its file-name pattern only through these
    operations ([GlobStarPattern::from], [wildcards_number], [match_string],
    [Display]); the client theorems need only the laws. *)

Class WildcardMatcher (P : Type) := {
  wm_from : str -> P;
  wm_wildcards : P -> nat;
  wm_match : P -> str -> option (list str);
  wm_render : P -> str
}.

Class WildcardMatcherLaws (P : Type) `{!WildcardMatcher P} := {
  (** a match yields one fragment per wildcard *)
  wm_match_length p s cs : wm_match p s = Some cs -> length cs = wm_wildcards p;
  (** printing a compiled pattern gives back its text *)
  wm_render_from s : wm_render (wm_from s) = s;
  (** the wildcard count of a compiled pattern is its number of stars *)
  wm_wildcards_from s : wm_wildcards (wm_from s) = length (filter (.= star_char) s)
}.
