(* ===== verification/RustStr.v ===== *)
(** * The Rust standard-library string and path operations used by [mmv]

    Executable models of [str::strip_prefix], [str::strip_suffix],
    [str::find], [str::rfind], [str::split] (on a [char]), [<[_]>::join],
    [str::split_at], [str::contains], [str::is_char_boundary],
    [u8::to_string] and Unix [Path::join], on byte lists ([str]), each
    with the lemmas that characterise it.  They model the standard library
    the sources call, not code of the repository.  A [&str] is valid UTF-8
    ([utf8]); slicing it at a byte index that is not a character boundary
    panics.  Every separator and sigil of [mmv] is an ASCII byte, so an
    index at or just after one of them is a boundary ([is_char_boundary_after_ascii]);
    an index computed otherwise need not be. *)

From S2P Require Import Prelude.

(** ** [str::strip_prefix] and [str::strip_suffix] *)

(** [s.strip_prefix(p)] *)
Fixpoint strip_prefix (p s : str) : option str :=
  match p, s with
  | [], _ => Some s
  | a :: p', b :: s' => if decide (a = b) then strip_prefix p' s' else None
  | _ :: _, [] => None
  end.

(** [s.strip_suffix(p)] *)
Definition strip_suffix (p s : str) : option str :=
  reverse <$> strip_prefix (reverse p) (reverse s).

(** [Pattern::is_prefix_of]: [p.is_prefix_of(s)], i.e. [s.starts_with(p)] *)
Definition is_prefix_of (p s : str) : bool :=
  match strip_prefix p s with Some _ => true | None => false end.

(** ** [str::find] with a string needle: the first byte index at which the
    needle occurs; the empty needle occurs at 0. *)
Fixpoint str_find (n s : str) : option nat :=
  match strip_prefix n s with
  | Some _ => Some 0
  | None => match s with [] => None | _ :: s' => S <$> str_find n s' end
  end.

(** ** [str::rfind] with a [char]: the index of the last occurrence. *)
Fixpoint rfind (c : ascii) (s : str) : option nat :=
  match s with
  | [] => None
  | a :: s' =>
      match rfind c s' with
      | Some i => Some (S i)
      | None => if decide (a = c) then Some 0 else None
      end
  end.

(** [str::split_at] (the index is always in range where [mmv] calls it) *)
Definition split_at (n : nat) (s : str) : str * str := (take n s, drop n s).

(** [str::contains] with a [char] *)
Definition contains (c : ascii) (s : str) : bool := bool_decide (c ∈ s).

(** ** [str::split] on a [char], and [join] of a slice of strings *)

Fixpoint split_char (c : ascii) (s : str) : list str :=
  match s with
  | [] => [[]]
  | a :: s' =>
      let pieces := split_char c s' in
      if decide (a = c) then [] :: pieces
      else match pieces with
           | p :: ps => (a :: p) :: ps
           | [] => [[a]]
           end
  end.

Fixpoint join (c : ascii) (l : list str) : str :=
  match l with
  | [] => []
  | [x] => x
  | x :: l' => x ++ c :: join c l'
  end.

(** ** [u8::to_string]: decimal digits, no leading zero *)

Definition digit_char (d : nat) : ascii := ascii_of_nat (48 + d).

Fixpoint decimal_digits (fuel n : nat) (acc : str) : str :=
  match fuel with
  | 0 => acc
  | S f =>
      let acc' := digit_char (n mod 10) :: acc in
      if n <? 10 then acc' else decimal_digits f (n / 10) acc'
  end.

Definition u8_to_string (n : nat) : str := decimal_digits (S n) n [].

(** ** [Path::join] on Unix: an absolute argument replaces the base; a
    separator is inserted when the base is non-empty and does not already
    end with one. *)
Definition path_join (base p : str) : str :=
  if bool_decide (head p = Some slash_char) then p
  else match last base with
       | None => p
       | Some c => if decide (c = slash_char) then base ++ p else base ++ slash_char :: p
       end.

(** ** [str::is_char_boundary] and UTF-8 *)

(** A UTF-8 continuation byte, [0b10xx_xxxx]. *)
Definition cont_byte (b : ascii) : bool := (128 <=? nat_of_ascii b) && (nat_of_ascii b <? 192).

(** [s.is_char_boundary(index)]: [index == 0]; past the last byte, exactly
    [index == s.len()]; otherwise the byte at [index] is not a
    continuation byte ([(b as i8) >= -0x40]).  [&s[index..]] panics when
    this is false. *)
Definition is_char_boundary (s : str) (index : nat) : bool :=
  match index with
  | 0 => true
  | _ => match s !! index with
         | None => bool_decide (index = length s)
         | Some b => negb (cont_byte b)
         end
  end.

Definition ascii_str (s : str) : bool := forallb (fun b => nat_of_ascii b <? 128) s.

(** The number of continuation bytes a non-ASCII lead byte announces. *)
Definition utf8_width (b : ascii) : nat :=
  if nat_of_ascii b <? 224 then 1 else if nat_of_ascii b <? 240 then 2 else 3.

(** The byte structure of UTF-8: every continuation byte is announced by
    the lead byte before it ([pending] of them are still due), and every
    announced one is there.  Overlong forms and surrogates, which this
    does not exclude, do not change where characters start. *)
Fixpoint utf8_from (pending : nat) (s : str) : bool :=
  match s with
  | [] => pending =? 0
  | b :: s' =>
      if cont_byte b then (0 <? pending) && utf8_from (pred pending) s'
      else (pending =? 0) && utf8_from (if nat_of_ascii b <? 128 then 0 else utf8_width b) s'
  end.

(** A [&str] holds valid UTF-8. *)
Definition utf8 (s : str) : bool := utf8_from 0 s.

(** * Lemmas *)

Lemma strip_prefix_Some p s r : strip_prefix p s = Some r <-> s = p ++ r.
Proof.
  revert s. induction p as [|a p IH]; intros [|b s]; simpl;
    try (split; intros; simplify_eq; done).
  case_decide; subst.
  - rewrite IH. split; intros; simplify_eq; done.
  - split; intros; simplify_eq; done.
Qed.

Lemma strip_prefix_app p r : strip_prefix p (p ++ r) = Some r.
Proof. by apply strip_prefix_Some. Qed.

Lemma strip_prefix_None p s : strip_prefix p s = None <-> forall r, s <> p ++ r.
Proof.
  split.
  - intros Hn r ->. by rewrite strip_prefix_app in Hn.
  - intros Hr. destruct (strip_prefix p s) as [r|] eqn:E; [|done].
    apply strip_prefix_Some in E. by destruct (Hr r).
Qed.

Lemma strip_suffix_Some p s r : strip_suffix p s = Some r <-> s = r ++ p.
Proof.
  unfold strip_suffix. rewrite fmap_Some. setoid_rewrite strip_prefix_Some.
  split.
  - intros (r' & Hs & ->).
    by rewrite <-(reverse_involutive s), Hs, reverse_app, reverse_involutive.
  - intros ->. exists (reverse r).
    by rewrite reverse_app, reverse_involutive.
Qed.

Lemma strip_suffix_app p r : strip_suffix p (r ++ p) = Some r.
Proof. by apply strip_suffix_Some. Qed.

Lemma strip_suffix_None p s : strip_suffix p s = None <-> forall r, s <> r ++ p.
Proof.
  split.
  - intros Hn r ->. by rewrite strip_suffix_app in Hn.
  - intros Hr. destruct (strip_suffix p s) as [r|] eqn:E; [|done].
    apply strip_suffix_Some in E. by destruct (Hr r).
Qed.

#[export] Hint Rewrite strip_prefix_app strip_suffix_app : mmv_rw.

Lemma is_prefix_of_true p s : is_prefix_of p s = true <-> exists r, s = p ++ r.
Proof.
  unfold is_prefix_of. destruct (strip_prefix p s) as [r|] eqn:E.
  - apply strip_prefix_Some in E. naive_solver.
  - rewrite strip_prefix_None in E. split; [done|]. intros [r Hr]. by destruct (E r).
Qed.

(** [find] returns an occurrence... *)
Lemma str_find_spec n s i :
  str_find n s = Some i -> i <= length s /\ s = take i s ++ n ++ drop (i + length n) s.
Proof.
  revert i. induction s as [|a s IH]; intros i Hi; cbn [str_find] in Hi;
    destruct (strip_prefix n _) as [r|] eqn:E.
  - injection Hi as <-. apply strip_prefix_Some in E. symmetry in E.
    apply app_eq_nil in E as [-> ->]. split; [simpl; lia|done].
  - done.
  - injection Hi as <-. apply strip_prefix_Some in E. split; [simpl; lia|].
    rewrite E. simpl. by rewrite drop_app_length.
  - destruct (str_find n s) as [j|] eqn:Ej; simpl in Hi; [|done]. injection Hi as <-.
    destruct (IH _ eq_refl) as [Hle Hs]. split; [simpl; lia|]. simpl. by rewrite <-Hs.
Qed.

(** ... the leftmost one ... *)
Lemma str_find_min n s i j r :
  str_find n s = Some i -> drop j s = n ++ r -> i <= j.
Proof.
  revert i j. induction s as [|a s IH]; intros i j Hi Hj; cbn [str_find] in Hi;
    destruct (strip_prefix n _) as [r'|] eqn:E; try (injection Hi as <-; lia); [done|].
  destruct (str_find n s) as [k|] eqn:Ek; simpl in Hi; [|done]. injection Hi as <-.
  destruct j as [|j]; simpl in Hj.
  - by rewrite Hj, strip_prefix_app in E.
  - specialize (IH _ _ eq_refl Hj). lia.
Qed.

Lemma str_find_here n s r : strip_prefix n s = Some r -> str_find n s = Some 0.
Proof. intros H. destruct s; simpl; by rewrite H. Qed.

(** ... and there is one as soon as the needle occurs. *)
Lemma str_find_first n a b :
  exists i, str_find n (a ++ n ++ b) = Some i /\ i <= length a.
Proof.
  induction a as [|x a IH].
  - exists 0. split; [|simpl; lia]. cbn [app]. eapply str_find_here, strip_prefix_app.
  - cbn [app str_find]. case_match; [exists 0; split; [done|lia]|].
    destruct IH as (i & -> & Hi). exists (S i). split; [done|simpl; lia].
Qed.

(** The occurrence [find] reports, as a decomposition. *)
Lemma str_find_decomp n s i :
  str_find n s = Some i ->
  exists r, s = take i s ++ n ++ r /\ length (take i s) = i /\ drop (i + length n) s = r.
Proof.
  intros H. destruct (str_find_spec _ _ _ H) as [Hle Hs].
  exists (drop (i + length n) s). split; [done|]. split; [|done].
  rewrite length_take. lia.
Qed.

(** [find(c)] reports a position holding [c]. *)
Lemma str_find_char_at c s i : str_find [c] s = Some i -> drop i s = c :: drop (S i) s.
Proof.
  intros H. destruct (str_find_spec _ _ _ H) as [Hle Hs].
  rewrite Hs at 1. rewrite drop_app_length' by (rewrite length_take; lia).
  simpl. by rewrite Nat.add_1_r.
Qed.

(** [find(c)] with a one-byte needle, index by index: the first position
    holding [c], or no position at all. *)
Lemma str_find_char_Some c s i :
  str_find [c] s = Some i -> s !! i = Some c /\ forall j, j < i -> s !! j <> Some c.
Proof.
  intros H. split.
  - rewrite <-(Nat.add_0_r i), <-lookup_drop. by rewrite (str_find_char_at _ _ _ H).
  - intros j Hj Hsj. apply drop_S in Hsj.
    pose proof (str_find_min _ _ _ j _ H Hsj). lia.
Qed.

Lemma str_find_char_None c s : str_find [c] s = None -> forall j, s !! j <> Some c.
Proof.
  intros H j Hj. apply take_drop_middle in Hj.
  destruct (str_find_first [c] (take j s) (drop (S j) s)) as (i & Hi & _).
  simpl in Hi. by rewrite Hj, H in Hi.
Qed.

(** ** [split_char] and [join] *)

Lemma split_char_not_nil c s : split_char c s <> [].
Proof.
  destruct s as [|a s]; simpl; [done|].
  case_decide; [done|]. by destruct (split_char c s).
Qed.

Lemma split_char_cons_not_sep c a s p ps :
  a <> c -> split_char c s = p :: ps -> split_char c (a :: s) = (a :: p) :: ps.
Proof. intros Ha Hs. simpl. rewrite decide_False by done. by rewrite Hs. Qed.

Lemma split_char_sep c s : split_char c (c :: s) = [] :: split_char c s.
Proof. simpl. by rewrite decide_True. Qed.

Lemma split_char_app_no_sep c b t p ps :
  c ∉ b -> split_char c t = p :: ps -> split_char c (b ++ t) = (b ++ p) :: ps.
Proof.
  intros Hb Ht. induction b as [|a b IH]; [done|]. simpl.
  apply not_elem_of_cons in Hb as [Ha Hb].
  rewrite decide_False by done. by rewrite (IH Hb).
Qed.

Lemma join_cons_cons c x y l : join c (x :: y :: l) = x ++ c :: join c (y :: l).
Proof. done. Qed.

Lemma join_head_cons c a p ps : join c ((a :: p) :: ps) = a :: join c (p :: ps).
Proof. by destruct ps. Qed.

(** Joining the pieces gives the string back. *)
Lemma join_split_char c s : join c (split_char c s) = s.
Proof.
  induction s as [|a s IH]; [done|]. simpl.
  destruct (split_char c s) as [|p ps] eqn:E; [by destruct (split_char_not_nil c s)|].
  case_decide as Ha.
  - subst a. by rewrite join_cons_cons, IH.
  - by rewrite join_head_cons, IH.
Qed.

Lemma split_char_pieces_no_sep c s : Forall (fun b => c ∉ b) (split_char c s).
Proof.
  induction s as [|a s IH]; simpl; [repeat constructor; set_solver|].
  destruct (split_char c s) as [|p ps] eqn:E; [by destruct (split_char_not_nil c s)|].
  case_decide; [constructor; [set_solver|done]|].
  inversion IH; subst. constructor; [set_solver|done].
Qed.

(** Splitting a join of separator-free pieces gives the pieces back. *)
Lemma split_char_join c l :
  l <> [] -> Forall (fun b => c ∉ b) l -> split_char c (join c l) = l.
Proof.
  induction l as [|b l IH]; [done|]. intros _ Hl. apply Forall_cons in Hl as [Hb Hl'].
  destruct l as [|b' l].
  - simpl. pose proof (split_char_app_no_sep c b [] [] [] Hb eq_refl) as H.
    by rewrite !app_nil_r in H.
  - rewrite join_cons_cons, (split_char_app_no_sep c b _ [] (b' :: l)); [by rewrite app_nil_r|done|].
    rewrite split_char_sep. by rewrite IH.
Qed.

(** One piece more than separators. *)
Lemma length_split_char c s : length (split_char c s) = S (length (filter (.= c) s)).
Proof.
  induction s as [|a s IH]; [done|]. simpl. rewrite filter_cons.
  destruct (split_char c s) as [|p ps] eqn:E; [by destruct (split_char_not_nil c s)|].
  case_decide; simpl in *; lia.
Qed.

Lemma count_not_elem_of (c : ascii) (s : str) : c ∉ s -> length (filter (.= c) s) = 0.
Proof.
  induction s as [|a s IH]; intros Hc; [done|]. apply not_elem_of_cons in Hc as [Ha Hc].
  rewrite filter_cons. case_decide; [congruence|]. by apply IH.
Qed.

(** ** [rfind] and the split at the last separator *)

Lemma rfind_Some c s i : rfind c s = Some i -> s !! i = Some c /\ c ∉ drop (S i) s.
Proof.
  revert i. induction s as [|a s IH]; intros i; simpl; [done|].
  destruct (rfind c s) as [j|] eqn:E.
  - intros [= <-]. by apply IH.
  - case_decide; [|done]. intros [= <-]. subst. split; [done|].
    simpl. rewrite drop_0. intros Hin.
    clear IH. induction s as [|b s IHs]; [set_solver|]. simpl in E.
    destruct (rfind c s); [done|]. case_decide; [done|]. set_solver.
Qed.

Lemma rfind_None c s : rfind c s = None -> c ∉ s.
Proof.
  induction s as [|a s IH]; simpl; [set_solver|].
  destruct (rfind c s); [done|]. case_decide; [done|]. set_solver.
Qed.

(** The index at which [mmv] splits a path: one past the last separator. *)
Definition last_sep_split (c : ascii) (s : str) : nat :=
  from_option S 0 (rfind c s).

Lemma last_sep_split_file c s : c ∉ drop (last_sep_split c s) s.
Proof.
  unfold last_sep_split. destruct (rfind c s) eqn:E; simpl.
  - by apply rfind_Some.
  - by apply rfind_None.
Qed.

Lemma last_sep_split_dir c s :
  take (last_sep_split c s) s = [] \/
  exists d, take (last_sep_split c s) s = d ++ [c].
Proof.
  unfold last_sep_split. destruct (rfind c s) as [i|] eqn:E; simpl; [right|by left].
  apply rfind_Some in E as [Hi _]. exists (take i s).
  by rewrite (take_S_r _ _ c).
Qed.

(** ** [u8::to_string] *)

Lemma digit_char_not_hash d : d < 10 -> digit_char d <> hash_char.
Proof. intros Hd. do 10 (destruct d as [|d]; [vm_compute; discriminate|]). lia. Qed.

Lemma decimal_digits_not_hash f n acc :
  hash_char ∉ acc -> hash_char ∉ decimal_digits f n acc.
Proof.
  revert n acc. induction f as [|f IH]; intros n acc Hacc; simpl; [done|].
  assert (hash_char ∉ digit_char (n mod 10) :: acc).
  { apply not_elem_of_cons. split; [|done].
    apply not_eq_sym, digit_char_not_hash, Nat.mod_upper_bound. lia. }
  destruct (n <? 10); [done|]. by apply IH.
Qed.

Lemma u8_to_string_not_hash n : hash_char ∉ u8_to_string n.
Proof. apply decimal_digits_not_hash. set_solver. Qed.

Lemma decimal_digits_length f n acc : length acc <= length (decimal_digits f n acc).
Proof.
  revert n acc. induction f as [|f IH]; intros n acc; simpl; [lia|].
  destruct (n <? 10); simpl; [lia|]. specialize (IH (n / 10) (digit_char (n mod 10) :: acc)).
  simpl in IH. lia.
Qed.

Lemma u8_to_string_length n : 1 <= length (u8_to_string n).
Proof.
  unfold u8_to_string. simpl. destruct (n <? 10); simpl; [lia|].
  pose proof (decimal_digits_length n (n / 10) [digit_char (n mod 10)]). simpl in *. lia.
Qed.

Lemma u8_to_string_cons n : exists d ds, u8_to_string n = d :: ds /\ d <> hash_char.
Proof.
  pose proof (u8_to_string_length n) as Hl. pose proof (u8_to_string_not_hash n) as Hh.
  destruct (u8_to_string n) as [|d ds]; simpl in Hl; [lia|].
  exists d, ds. split; [done|]. set_solver.
Qed.

(** ** Character boundaries *)

Lemma ascii_not_cont b : nat_of_ascii b < 128 -> cont_byte b = false.
Proof. intros Hb. unfold cont_byte. apply andb_false_intro1, Nat.leb_gt. lia. Qed.

(** After an ASCII byte, valid UTF-8 continues with a new character, and
    what follows is valid UTF-8 on its own. *)
Lemma utf8_from_after_ascii p s i b :
  utf8_from p s = true -> s !! i = Some b -> nat_of_ascii b < 128 ->
  utf8_from 0 (drop (S i) s) = true.
Proof.
  revert p i. induction s as [|x s IH]; intros p [|i] H Hi Hb; simpl in *; try done.
  - injection Hi as ->. rewrite ascii_not_cont in H by done.
    apply andb_prop in H as [_ H]. by rewrite (proj2 (Nat.ltb_lt _ _) Hb) in H.
  - destruct (cont_byte x); apply andb_prop in H as [_ H]; by eapply IH.
Qed.

Lemma utf8_from_head_not_cont s c : utf8_from 0 (c :: s) = true -> cont_byte c = false.
Proof. simpl. by destruct (cont_byte c). Qed.

Lemma is_char_boundary_after_ascii s i b :
  utf8 s = true -> s !! i = Some b -> nat_of_ascii b < 128 -> is_char_boundary s (S i) = true.
Proof.
  intros Hs Hi Hb. pose proof (utf8_from_after_ascii _ _ _ _ Hs Hi Hb) as Hd.
  unfold is_char_boundary. destruct (s !! S i) as [c|] eqn:Hc.
  - rewrite (drop_S _ _ _ Hc) in Hd. by rewrite (utf8_from_head_not_cont _ _ Hd).
  - apply bool_decide_eq_true. apply lookup_lt_Some in Hi. apply lookup_ge_None in Hc. lia.
Qed.

Lemma is_char_boundary_ascii s i :
  ascii_str s = true -> i <= length s -> is_char_boundary s i = true.
Proof.
  intros Hs Hi. destruct i as [|i]; [done|]. unfold is_char_boundary.
  destruct (s !! S i) as [c|] eqn:Hc.
  - unfold ascii_str in Hs. rewrite forallb_forall in Hs.
    apply list_elem_of_lookup_2, list_elem_of_In, Hs, Nat.ltb_lt in Hc.
    by rewrite ascii_not_cont.
  - apply bool_decide_eq_true. apply lookup_ge_None in Hc. lia.
Qed.

(** The file-name part of a path is valid UTF-8 when the path is. *)
Lemma utf8_file_part c s :
  nat_of_ascii c < 128 -> utf8 s = true -> utf8 (drop (last_sep_split c s) s) = true.
Proof.
  intros Hc Hs. unfold last_sep_split. destruct (rfind c s) as [i|] eqn:E; simpl; [|done].
  apply rfind_Some in E as [Hi _]. by apply (utf8_from_after_ascii 0 _ _ c).
Qed.

Lemma ascii_str_cons c s : ascii_str (c :: s) = true <-> nat_of_ascii c < 128 /\ ascii_str s = true.
Proof. unfold ascii_str. simpl. by rewrite andb_true_iff, Nat.ltb_lt. Qed.

Lemma ascii_str_app s t : ascii_str (s ++ t) = true <-> ascii_str s = true /\ ascii_str t = true.
Proof. unfold ascii_str. by rewrite forallb_app, andb_true_iff. Qed.

Lemma ascii_str_drop n s : ascii_str s = true -> ascii_str (drop n s) = true.
Proof.
  intros H. rewrite <-(take_drop n s) in H. by apply ascii_str_app in H as [_ H].
Qed.

Lemma ascii_str_utf8 s : ascii_str s = true -> utf8 s = true.
Proof.
  unfold utf8. induction s as [|c s IH]; [done|]. intros [Hc Hs]%ascii_str_cons.
  simpl. rewrite ascii_not_cont, (proj2 (Nat.ltb_lt _ _) Hc) by done. by apply IH.
Qed.

(** Dropping a prefix that ends with ASCII bytes keeps a [&str] valid. *)
Lemma utf8_drop_ascii_block p a r :
  utf8 (p ++ a ++ r) = true -> a <> [] -> ascii_str a = true -> utf8 r = true.
Proof.
  intros H Ha Hasc. destruct (exists_last Ha) as (a' & c & ->).
  apply ascii_str_app in Hasc as [_ Hc]. apply ascii_str_cons in Hc as [Hc _].
  replace r with (drop (S (length (p ++ a'))) ((p ++ a') ++ c :: r))
    by (by rewrite <-Nat.add_1_r, <-drop_drop, drop_app_length).
  apply (utf8_from_after_ascii 0 _ _ c); [|by rewrite lookup_app_r, Nat.sub_diag by lia|done].
  by rewrite <-!app_assoc in *.
Qed.

Lemma decimal_digits_ascii f n acc : ascii_str acc = true -> ascii_str (decimal_digits f n acc) = true.
Proof.
  revert n acc. induction f as [|f IH]; intros n acc Hacc; simpl; [done|].
  assert (Hd : ascii_str (digit_char (n mod 10) :: acc) = true).
  { apply ascii_str_cons. split; [|done]. unfold digit_char.
    pose proof (Nat.mod_upper_bound n 10 ltac:(lia)).
    rewrite nat_ascii_embedding by lia. lia. }
  destruct (n <? 10); [done|]. by apply IH.
Qed.

Lemma u8_to_string_ascii n : ascii_str (u8_to_string n) = true.
Proof. by apply decimal_digits_ascii. Qed.

Lemma hash_char_ascii : nat_of_ascii hash_char < 128.
Proof. cbv. lia. Qed.

Lemma slash_char_ascii : nat_of_ascii slash_char < 128.
Proof. cbv. lia. Qed.

Lemma marker_text_ascii k : ascii_str (hash_char :: u8_to_string k) = true.
Proof. apply ascii_str_cons. split; [apply hash_char_ascii|apply u8_to_string_ascii]. Qed.
