(* ===== verification/GlobStarPattern.v ===== *)
(** * [GlobStarPattern] (src/lib/src/glob_star_pattern.rs)

    The compiled pattern is its list of literal blocks; [from] splits on
    ['*'], [match_string] is the greedy leftmost matcher, [to_string] is the
    [Display] implementation.  The theorems: round trips between text and
    blocks, the wildcard count, soundness, leftmost choice and
    completeness of [match_string] with respect to the decomposition
    [s = b0 ++ c1 ++ b1 ++ ... ++ cn ++ bn], and the instance of the
    [WildcardMatcher] interface used by [SourcePathPattern]. *)

From S2P Require Import Prelude RustStr.

Module GlobStarPattern.

(** [pub struct GlobStarPattern { literal_blocks: Vec<String> }] *)
Record GlobStarPattern := mk_glob { literal_blocks : list str }.

#[global] Instance GlobStarPattern_eq_dec : EqDecision GlobStarPattern.
Proof. solve_decision. Defined.

(** [impl From<&str>]: [string.split('*').map(str::to_string).collect()] *)
Definition from (string : str) : GlobStarPattern :=
  mk_glob (split_char star_char string).

(** [wildcards_number]: [self.literal_blocks.len() - 1] *)
Definition wildcards_number (p : GlobStarPattern) : nat :=
  length (literal_blocks p) - 1.

(** The [for block in ...] loop of [match_string]: find the leftmost
    occurrence of each block, capture what precedes it, continue after it. *)
Fixpoint match_blocks (blocks : list str) (string : str) : option (list str * str) :=
  match blocks with
  | [] => Some ([], string)
  | block :: rest =>
      block_match_begin ← str_find block string;
      '(result, string') ← match_blocks rest (drop (block_match_begin + length block) string);
      Some (take block_match_begin string :: result, string')
  end.

(** [match_string].  [self.literal_blocks[0]] and [.last().unwrap()] cannot
    fail on a compiled pattern (its block list is never empty,
    [from_blocks_not_nil]); [head]/[last] returning [None] stands for those
    unreachable panics. *)
Definition match_string (p : GlobStarPattern) (string : str) : option (list str) :=
  first_block ← head (literal_blocks p);
  string ← strip_prefix first_block string;
  if decide (wildcards_number p = 0) then
    (if decide (string = []) then Some [] else None)
  else
    '(result, string) ← match_blocks
                          (take (wildcards_number p - 1) (drop 1 (literal_blocks p))) string;
    last_block ← last (literal_blocks p);
    last_fragment ← strip_suffix last_block string;
    Some (result ++ [last_fragment]).

(** [impl Display]: [self.literal_blocks.join("*")] *)
Definition to_string (p : GlobStarPattern) : str :=
  join star_char (literal_blocks p).

(** ** Specification *)

(** [s] is an instance of [p] with fragments [cs]. *)
Definition instance_of (p : GlobStarPattern) (s : str) (cs : list str) : Prop :=
  length cs = wildcards_number p /\ s = fill (literal_blocks p) cs.

(** Well-formed patterns: what [from] builds. *)
Definition wf (p : GlobStarPattern) : Prop :=
  literal_blocks p <> [] /\ Forall (fun b => star_char ∉ b) (literal_blocks p).

(** Middle blocks [b1..bk] and fragments [c1..ck] before a remainder [r]:
    [c1 ++ b1 ++ ... ++ ck ++ bk ++ r]. *)
Fixpoint fill_mid (blocks fragments : list str) (r : str) : str :=
  match blocks, fragments with
  | b :: bs, c :: cs => c ++ b ++ fill_mid bs cs r
  | _, _ => r
  end.

(** [cs] is the leftmost decomposition of [s]: each fragment is the
    shortest one that any decomposition with the same earlier fragments
    has. *)
Definition leftmost (p : GlobStarPattern) (s : str) (cs : list str) : Prop :=
  forall cs' i, instance_of p s cs' -> take i cs = take i cs' ->
  length (cs !!! i) <= length (cs' !!! i).

(** ** Lemmas on the loop *)

Lemma match_blocks_sound blocks s caps r :
  match_blocks blocks s = Some (caps, r) ->
  length caps = length blocks /\ s = fill_mid blocks caps r.
Proof.
  revert s caps. induction blocks as [|b bs IH]; intros s caps H; simpl in H.
  - by injection H as <- <-.
  - destruct (str_find b s) as [i|] eqn:Ei; simpl in H; [|done].
    destruct (match_blocks bs _) as [[caps' r']|] eqn:Em; simpl in H; [|done].
    injection H as <- <-. destruct (IH _ _ Em) as [Hlen Hs].
    split; [simpl; lia|]. simpl. rewrite <-Hs.
    by apply str_find_spec.
Qed.

(** After the leftmost occurrence of [b] in [a ++ b ++ t], what remains
    still ends with [t]. *)
Lemma drop_after_find b a t i :
  str_find b (a ++ b ++ t) = Some i -> exists y, drop (i + length b) (a ++ b ++ t) = y ++ t.
Proof.
  intros Hi. assert (i <= length a).
  { eapply (str_find_min _ _ _ (length a) t Hi). by rewrite drop_app_length. }
  set (d := drop (i + length b) (a ++ b ++ t)).
  assert (Ht : drop (length a - i) d = t).
  { subst d. rewrite drop_drop. replace (i + length b + (length a - i))
      with (length a + length b) by lia.
    by rewrite app_assoc, drop_app_length' by (rewrite length_app; lia). }
  exists (take (length a - i) d). rewrite <-Ht at 1. by rewrite take_drop.
Qed.

(** The loop succeeds on every instance, leaving a remainder that ends
    with the rest of the string. *)
Lemma match_blocks_complete blocks caps r x :
  length caps = length blocks ->
  exists caps' pre, match_blocks blocks (x ++ fill_mid blocks caps r) = Some (caps', pre ++ r).
Proof.
  revert caps x. induction blocks as [|b bs IH]; intros caps x Hlen.
  - exists [], x. done.
  - destruct caps as [|c cs]; [done|]. simpl in Hlen.
    cbn [fill_mid match_blocks]. rewrite app_assoc.
    destruct (str_find_first b (x ++ c) (fill_mid bs cs r)) as (i & Hi & _).
    rewrite Hi. simpl.
    destruct (drop_after_find _ _ _ _ Hi) as [y Hy]. rewrite Hy.
    destruct (IH cs y ltac:(lia)) as (caps' & pre & ->). simpl. eauto.
Qed.

(** The loop captures, at each block, the shortest fragment that any
    decomposition agreeing on the earlier fragments has. *)
Lemma match_blocks_leftmost blocks s caps r caps' r' i :
  match_blocks blocks s = Some (caps, r) -> length caps' = length blocks ->
  s = fill_mid blocks caps' r' -> take i caps = take i caps' -> i < length blocks ->
  length (caps !!! i) <= length (caps' !!! i).
Proof.
  revert s caps caps' i. induction blocks as [|b bs IH];
    intros s caps caps' i H Hlen Hs Ht Hi; simpl in *; [lia|].
  destruct (str_find b s) as [j|] eqn:Ej; simpl in H; [|done].
  destruct (match_blocks bs _) as [[cr r0]|] eqn:Em; simpl in H; [|done].
  injection H as <- <-. destruct caps' as [|c' cr']; simpl in Hlen; [lia|].
  destruct (str_find_spec _ _ _ Ej) as [Hjs _].
  assert (Hj : j <= length c').
  { apply (str_find_min _ _ _ _ (fill_mid bs cr' r') Ej). by rewrite Hs, drop_app_length. }
  destruct i as [|i]; simpl; [rewrite length_take; lia|].
  injection Ht as Hc Ht. apply (IH _ _ _ _ Em); [lia| |done|lia].
  assert (Hlc : length c' = j) by (rewrite <-Hc, length_take; lia).
  rewrite <-Hlc, Hs, app_assoc, drop_app_length'; [done|by rewrite length_app].
Qed.

Lemma fill_mid_inj blocks cs r1 r2 : fill_mid blocks cs r1 = fill_mid blocks cs r2 -> r1 = r2.
Proof.
  revert cs. induction blocks as [|b bs IH]; intros [|c cs]; simpl; try done.
  intros H. apply IH with cs. by do 2 apply app_inv_head in H.
Qed.

(** The block list of a pattern with [n >= 1] wildcards: first block,
    the [n - 1] middle blocks the loop visits, and the last block. *)
Lemma blocks_split (p : GlobStarPattern) :
  wildcards_number p <> 0 ->
  exists b0 mids bl,
    literal_blocks p = b0 :: mids ++ [bl] /\
    take (wildcards_number p - 1) (drop 1 (literal_blocks p)) = mids /\
    last (literal_blocks p) = Some bl /\
    wildcards_number p = S (length mids).
Proof.
  unfold wildcards_number. destruct p as [[|b0 tl]]; cbn [literal_blocks]; [simpl; lia|].
  intros Htl.
  destruct (exists_last (l := tl) ltac:(intros ->; simpl in Htl; lia)) as (mids & bl & ->).
  exists b0, mids, bl. split; [done|].
  rewrite length_cons, length_app. cbn [length drop].
  split; [apply take_app_length'; lia|]. split; [|lia].
  apply (last_snoc bl (b0 :: mids)).
Qed.

Lemma blocks_zero (p : GlobStarPattern) :
  wildcards_number p = 0 -> literal_blocks p <> [] -> exists b0, literal_blocks p = [b0].
Proof.
  unfold wildcards_number. destruct p as [[|b0 [|b1 tl]]]; simpl; [done|eauto|lia].
Qed.

Lemma fill_first_mid_last (b0 : str) (mids : list str) (bl : str) (caps : list str) (cl : str) :
  length caps = length mids ->
  fill (b0 :: mids ++ [bl]) (caps ++ [cl]) = b0 ++ fill_mid mids caps (cl ++ bl).
Proof.
  revert b0 caps. induction mids as [|m mids IH]; intros b0 caps Hlen.
  - destruct caps; [|done]. done.
  - destruct caps as [|c caps]; [done|]. simpl in *.
    rewrite IH by lia. done.
Qed.

(** ** Theorems *)

(** C20. Display after [From] gives back the pattern text. *)
Theorem to_string_from (s : str) : to_string (from s) = s.
Proof. apply join_split_char. Qed.

(** C23. Every compiled pattern is well formed: at least one block, and no
    block contains ['*']. *)
Theorem from_wf (s : str) : wf (from s).
Proof. split; [apply split_char_not_nil|apply split_char_pieces_no_sep]. Qed.

(** C21. [From] after Display gives back every well-formed pattern. *)
Theorem from_to_string (p : GlobStarPattern) : wf p -> from (to_string p) = p.
Proof.
  intros [Hne Hst]. destruct p as [blocks]. unfold from, to_string. simpl in *.
  f_equal. by apply split_char_join.
Qed.

(** C22. The wildcard count of a compiled pattern is the number of ['*']. *)
Theorem wildcards_number_from (s : str) :
  wildcards_number (from s) = length (filter (.= star_char) s).
Proof. unfold wildcards_number, from. simpl. rewrite length_split_char. lia. Qed.

(** A match has one fragment per wildcard, and putting the fragments
    between the blocks gives back the name. *)
Lemma match_string_Some (p : GlobStarPattern) (s : str) (cs : list str) :
  match_string p s = Some cs -> instance_of p s cs.
Proof.
  intros H. unfold match_string in H. unfold instance_of.
  destruct (head (literal_blocks p)) as [b0|] eqn:Hh; simpl in H; [|done].
  destruct (strip_prefix b0 s) as [s1|] eqn:E1; simpl in H; [|done].
  apply strip_prefix_Some in E1 as ->.
  case_decide as Hn.
  - case_decide; [|done]. injection H as <-. subst s1.
    destruct (blocks_zero p Hn) as [b Hb]; [by intros Hb; rewrite Hb in Hh|].
    rewrite Hb in Hh |- *. injection Hh as ->. split; [done|]. simpl. by rewrite app_nil_r.
  - destruct (blocks_split p Hn) as (b & mids & bl & Hb & Hmid & Hlast & Hw).
    rewrite Hmid, Hlast in H. rewrite Hb in Hh |- *. injection Hh as ->.
    destruct (match_blocks mids s1) as [[caps r]|] eqn:Em; simpl in H; [|done].
    destruct (strip_suffix bl r) as [cl|] eqn:Es; simpl in H; [|done].
    injection H as <-. apply strip_suffix_Some in Es as ->.
    destruct (match_blocks_sound _ _ _ _ Em) as [Hlen ->].
    rewrite fill_first_mid_last by done. split; [|done].
    rewrite length_app, Hw. simpl. lia.
Qed.

(** The fragments of a match are made of bytes of the name. *)
Lemma match_string_fragment_elem (p : GlobStarPattern) (s : str) (cs : list str) c x :
  match_string p s = Some cs -> c ∈ cs -> x ∈ c -> x ∈ s.
Proof.
  intros H Hc Hx. destruct (match_string_Some _ _ _ H) as [Hlen ->].
  apply (fill_elem_fragment _ _ cs c); [|done..].
  unfold match_string in H. unfold wildcards_number in Hlen.
  destruct (literal_blocks p) as [|b bs]; simpl in *; [done|lia].
Qed.

(** The fragments of a match are the leftmost ones. *)
Lemma match_string_leftmost (p : GlobStarPattern) (s : str) (cs : list str) :
  match_string p s = Some cs -> leftmost p s cs.
Proof.
  intros H cs' i [Hlen' Hs'] Ht. destruct (match_string_Some _ _ _ H) as [Hlen _].
  destruct (decide (length cs <= i)).
  { rewrite list_lookup_total_alt, lookup_ge_None_2 by done. simpl. lia. }
  unfold match_string in H.
  destruct (head (literal_blocks p)) as [b0|] eqn:Hh; simpl in H; [|done].
  destruct (strip_prefix b0 s) as [s1|] eqn:E1; simpl in H; [|done].
  apply strip_prefix_Some in E1 as ->. case_decide as Hn; [lia|].
  destruct (blocks_split p Hn) as (b & mids & bl & Hb & Hmid & Hlast & Hw).
  rewrite Hmid, Hlast in H. rewrite Hb in Hh, Hs'. injection Hh as <-.
  destruct (match_blocks mids s1) as [[caps r]|] eqn:Em; simpl in H; [|done].
  destruct (strip_suffix bl r) as [cl|] eqn:Es; simpl in H; [|done].
  injection H as <-. apply strip_suffix_Some in Es as ->.
  destruct (match_blocks_sound _ _ _ _ Em) as [Hcaps Hs1].
  destruct (exists_last (l := cs') ltac:(intros ->; simpl in Hlen'; lia)) as (caps' & cl' & ->).
  rewrite length_app, Hw in Hlen'. simpl in Hlen'.
  rewrite fill_first_mid_last in Hs' by lia. apply app_inv_head in Hs'.
  rewrite length_app in *. simpl in *.
  destruct (decide (i < length mids)).
  - rewrite !lookup_total_app_l, !take_app_le in * by lia.
    by apply (match_blocks_leftmost _ _ _ _ _ (cl' ++ bl) _ Em); [lia| |done|done].
  - assert (i = length mids) as -> by lia.
    rewrite !take_app_length' in Ht by lia. subst caps'.
    rewrite Hs1 in Hs'. by apply fill_mid_inj, app_inv_tail in Hs' as ->.
Qed.

(** C1. [match_string] is correct: a match has one fragment per wildcard,
    putting the fragments between the blocks gives back the name, and the
    fragments are the leftmost ones (each is the shortest possible given
    the earlier ones; e.g. ["*.*"] splits ["a.b.c"] as ["a"; "b.c"]). *)
Theorem match_string_sound (p : GlobStarPattern) (s : str) (cs : list str) :
  match_string p s = Some cs -> instance_of p s cs /\ leftmost p s cs.
Proof.
  intros H. split; [by apply match_string_Some|by apply match_string_leftmost].
Qed.

(** C2. Completeness of [match_string]: whenever a name is an instance of
    the pattern, the greedy leftmost matcher finds a match (no backtracking
    is ever needed). *)
Theorem match_string_complete (p : GlobStarPattern) (s : str) (cs : list str) :
  literal_blocks p <> [] -> instance_of p s cs -> is_Some (match_string p s).
Proof.
  intros Hne [Hlen ->]. unfold match_string.
  destruct (decide (wildcards_number p = 0)) as [Hn|Hn].
  - destruct (blocks_zero p Hn Hne) as [b Hb]. rewrite Hb. simpl.
    rewrite Hn in Hlen. destruct cs; [|done].
    rewrite <-(app_nil_r b) at 2. rewrite strip_prefix_app. simpl.
    by eexists.
  - destruct (blocks_split p Hn) as (b & mids & bl & Hb & Hmid & Hlast & Hw).
    rewrite Hmid, Hlast, Hb.
    destruct (exists_last (l := cs) ltac:(intros ->; simpl in Hlen; lia)) as (caps & cl & ->).
    rewrite length_app, Hw in Hlen. simpl in Hlen.
    rewrite fill_first_mid_last by lia. simpl. rewrite strip_prefix_app. simpl.
    destruct (match_blocks_complete mids caps (cl ++ bl) [] ltac:(lia)) as (caps' & pre & Hm).
    simpl in Hm. rewrite Hm. simpl.
    rewrite app_assoc, strip_suffix_app. by eexists.
Qed.

(** ** Witnesses *)

Lemma match_string_sound_witness :
  match_string (from "*.*") "a.b.c" = Some ["a"; "b.c"] /\
  instance_of (from "*.*") "a.b.c" ["a"; "b.c"] /\ leftmost (from "*.*") "a.b.c" ["a"; "b.c"].
Proof.
  assert (H : match_string (from "*.*") "a.b.c" = Some ["a"; "b.c"]) by (vm_compute; reflexivity).
  split; [exact H|]. exact (match_string_sound _ _ _ H).
Defined.

Lemma match_string_complete_witness :
  literal_blocks (from "*.rs*.rs") <> [] /\
  instance_of (from "*.rs*.rs") "a.rs.rsb.rs" ["a.rs"; "b"] /\
  is_Some (match_string (from "*.rs*.rs") "a.rs.rsb.rs").
Proof.
  assert (Hne : literal_blocks (from "*.rs*.rs") <> []) by (vm_compute; discriminate).
  assert (Hi : instance_of (from "*.rs*.rs") "a.rs.rsb.rs" ["a.rs"; "b"])
    by (split; vm_compute; reflexivity).
  split; [exact Hne|]. split; [exact Hi|].
  exact (match_string_complete _ _ _ Hne Hi).
Defined.

Lemma from_to_string_witness :
  wf (mk_glob ["original_"; "."; ""]) /\
  from (to_string (mk_glob ["original_"; "."; ""])) = mk_glob ["original_"; "."; ""].
Proof.
  assert (Hwf : wf (mk_glob ["original_"; "."; ""])).
  { split; [discriminate|]. apply (bool_decide_unpack _). vm_compute. reflexivity. }
  split; [exact Hwf|]. exact (from_to_string _ Hwf).
Defined.

(** ** The unit tests of [glob_star_pattern.rs] *)

Module Tests.

(** [fn check(pattern, test_data)] of [mod test_match_string]: every
    expected match has [wildcards_number] fragments, and [match_string]
    returns the expected result. *)
Definition check (pattern : str) (test_data : list (str * option (list str))) : bool :=
  let compiled_pattern := from pattern in
  forallb (fun '(string_to_match, expected_result) =>
    match expected_result with
    | Some match_result => length match_result =? wildcards_number compiled_pattern
    | None => true
    end && bool_decide (match_string compiled_pattern string_to_match = expected_result))
    test_data.

Definition single_star : bool :=
  check "*" [("hello", Some ["hello"]); ("", Some [""]); ("e", Some ["e"])].

Definition no_wildcard : bool :=
  check "pattern" [("pattern", Some []); ("42", None); ("", None);
                   ("patternpattern", None); ("junkpattern", None); ("patternjunk", None)].

Definition simple : bool :=
  check "*.jpg" [("filename.jpg", Some ["filename"]); (".jpg", Some [""]);
                 ("best_project.rs", None); ("", None); ("image.jpg.zip", None)].

Definition star_dot_star : bool :=
  check "*.*" [("42.rs", Some ["42"; "rs"]); (".", Some [""; ""]); (".rs", Some [""; "rs"]);
               ("42.", Some ["42"; ""]); ("nodotrs", None); ("", None)].

Definition two_wildcards : bool :=
  check "file*.*" [("file.jpg", Some [""; "jpg"]); ("file.", Some [""; ""]);
                   ("filename.png", Some ["name"; "png"]); ("filenoext", None); ("file", None)].

Definition repeated_pattern : bool :=
  check "*.rs*.rs" [("file.rs", None); ("", None); (".rs.rs", Some [""; ""]);
                    ("file.rs.rs", Some ["file"; ""]); ("file.rs42.rs", Some ["file"; "42"]);
                    (".rs.rsjunk", None)].

(** [fn test_parse_from_str] *)
Definition test_parse_from_str : bool :=
  forallb (fun '(pattern, expected_blocks) =>
    bool_decide (literal_blocks (from pattern) = expected_blocks))
    [(""%mmv, [""%mmv]); ("*", [""; ""]); ("*.jpg", [""; ".jpg"]);
     ("original_*.*", ["original_"; "."; ""]); ("**.*", [""; ""; "."; ""])].

(** [fn test_display] *)
Definition test_display : bool :=
  forallb (fun pattern => bool_decide (to_string (from pattern) = pattern))
    [""; "hello"; "*"; "*hello"; "**"; "*hello**"; "text*.png"; "text*"].

(** The model passes every unit test of [glob_star_pattern.rs]:
    [single_star], [no_wildcard], [simple], [star_dot_star],
    [two_wildcards], [repeated_pattern], [test_parse_from_str] and
    [test_display]. *)
Example glob_unit_tests_pass :
  single_star && no_wildcard && simple && star_dot_star && two_wildcards
  && repeated_pattern && test_parse_from_str && test_display = true.
Proof. vm_compute. reflexivity. Qed.

End Tests.

End GlobStarPattern.

(** ** The glob pattern implements the matcher interface *)

#[export] Instance glob_wildcard_matcher : WildcardMatcher GlobStarPattern.GlobStarPattern := {|
  wm_from := GlobStarPattern.from;
  wm_wildcards := GlobStarPattern.wildcards_number;
  wm_match := GlobStarPattern.match_string;
  wm_render := GlobStarPattern.to_string
|}.

#[export] Instance glob_wildcard_matcher_laws : WildcardMatcherLaws GlobStarPattern.GlobStarPattern.
Proof.
  split.
  - intros p s cs H. by destruct (GlobStarPattern.match_string_Some p s cs H).
  - intros s. apply join_split_char.
  - intros s. cbn [wm_wildcards wm_from glob_wildcard_matcher].
    unfold GlobStarPattern.wildcards_number, GlobStarPattern.from.
    cbn [GlobStarPattern.literal_blocks]. rewrite length_split_char. lia.
Qed.

