(* ===== verification/DestinationPathTemplate.v ===== *)
(** * [DestinationPathTemplate] (src/lib/src/destination_path_template.rs)

    [compile] is the source's [while let] loop over the file name with its
    state ([filename_remainder], [current_offset_in_filename], [markers],
    [literal_blocks]) passed explicitly and bounded by fuel, including the
    panic of the slice [&filename_remainder[current_offset_in_filename..]]
    when the offset is not a character boundary; [substitute] returns
    [Err] where the source panics.  The theorems: the marker search picks
    the largest index in range, every state of the loop still renders to
    the template (so a finished compile is a round trip), and [substitute]
    fails exactly when a marker exceeds the number of fragments.  When
    [compile] hangs or panics is in [CompileTermination.v]. *)

From S2P Require Import Prelude RustStr.

Module DestinationPathTemplate.

(** [pub struct DestinationPathTemplate<'a>]; [markers: Vec<u8>] holds
    values in [1..=255], kept as [nat]. *)
Record DestinationPathTemplate := mk_template {
  directory : str;
  markers : list nat;
  literal_blocks : list str
}.

#[global] Instance DestinationPathTemplate_eq_dec : EqDecision DestinationPathTemplate.
Proof. solve_decision. Defined.

(** The inner [for marker_index in (1..=max_marker_index).rev()] loop with
    its test [marker_index.to_string().is_prefix_of(rest)]: the first hit
    going down from [max_marker_index]. *)
Fixpoint find_marker (marker_index : nat) (rest : str) : option nat :=
  match marker_index with
  | 0 => None
  | S k =>
      if is_prefix_of (u8_to_string (S k)) rest then Some (S k)
      else find_marker k rest
  end.

(** The panics of [compile] and [substitute]: a slice [&s[i..]] at a
    byte index that is not a character boundary of [s], an index past the
    end of [fragments_values], and [0u8 as usize - 1]. *)
Inductive panic :=
  | NotCharBoundary (index : nat)
  | IndexOutOfBounds (index len : nat)
  | SubtractWithOverflow.

#[global] Instance panic_eq_dec : EqDecision panic.
Proof. solve_decision. Defined.

(** The [while let Some(hashtag_position) = ...find('#')] loop.  On a hit
    it pushes the block before the ['#'] and the marker, drops the ['#']
    and the digits, and resets the offset; on a miss it sets
    [current_offset_in_filename = hashtag_position + 1], where
    [hashtag_position] is relative to the slice that starts at the old
    offset.  The slice [&filename_remainder[current_offset_in_filename..]]
    panics unless the offset is a character boundary; the other slices
    start or end at the ['#'] or just after the last digit, ASCII bytes,
    so they are boundaries ([is_char_boundary_after_ascii]).  [None] means
    the fuel ran out. *)
Fixpoint compile_loop (fuel max_marker_index : nat) (filename_remainder : str)
    (current_offset_in_filename : nat) (markers : list nat) (literal_blocks : list str)
    : option (result panic (str * list nat * list str)) :=
  match fuel with
  | 0 => None
  | S fuel =>
      if negb (is_char_boundary filename_remainder current_offset_in_filename)
      then Some (Err (NotCharBoundary current_offset_in_filename)) else
      match str_find [hash_char] (drop current_offset_in_filename filename_remainder) with
      | None => Some (Ok (filename_remainder, markers, literal_blocks))
      | Some hashtag_position =>
          match find_marker max_marker_index
                  (drop (current_offset_in_filename + hashtag_position + 1) filename_remainder) with
          | Some marker_index =>
              compile_loop fuel max_marker_index
                (drop (current_offset_in_filename + hashtag_position
                       + length (u8_to_string marker_index) + 1) filename_remainder)
                0
                (markers ++ [marker_index])
                (literal_blocks
                   ++ [take (current_offset_in_filename + hashtag_position) filename_remainder])
          | None =>
              compile_loop fuel max_marker_index filename_remainder
                (hashtag_position + 1) markers literal_blocks
          end
      end
  end.

(** Enough fuel for every terminating run: a marker consumes at least two
    bytes, and a marker-free stretch is crossed in at most two probes. *)
Definition compile_fuel (filename : str) : nat := length filename + 2.

(** [compile]: split after the last ['/'], run the loop, push the rest as
    the last block.  [None]: the loop does not stop; [Some (Err _)]: it
    panics. *)
Definition compile (path_pattern : str) (max_marker_index : nat)
    : option (result panic DestinationPathTemplate) :=
  let '(directory, filename_remainder) :=
    split_at (last_sep_split slash_char path_pattern) path_pattern in
  r ← compile_loop (compile_fuel filename_remainder) max_marker_index
        filename_remainder 0 [] [];
  Some ('(filename_remainder, markers, literal_blocks) ← r;
        Ok (mk_template directory markers (literal_blocks ++ [filename_remainder]))).

(** The [for (marker_index, block) in ...zip(...)] loop of [substitute]:
    [result_filename += fragments_values[*marker_index as usize - 1];
     result_filename += block]. *)
Fixpoint substitute_loop (fragments_values : list str) (pairs : list (nat * str))
    (result_filename : str) : result panic str :=
  match pairs with
  | [] => Ok result_filename
  | (marker_index, block) :: rest =>
      if decide (marker_index = 0) then Err SubtractWithOverflow
      else match fragments_values !! (marker_index - 1) with
           | Some fragment =>
               substitute_loop fragments_values rest (result_filename ++ fragment ++ block)
           | None => Err (IndexOutOfBounds (marker_index - 1) (length fragments_values))
           end
  end.

(** [substitute]: start from [self.literal_blocks[0]], run the loop, and
    [self.directory.join(result_filename)]. *)
Definition substitute (t : DestinationPathTemplate) (fragments_values : list str)
    : result panic str :=
  result_filename ← ok_or (head (literal_blocks t)) (IndexOutOfBounds 0 0);
  result_filename ← substitute_loop fragments_values
                      (zip (markers t) (drop 1 (literal_blocks t))) result_filename;
  Ok (path_join (directory t) result_filename).

(** ** Specification *)

(** The text of marker [m] in a template: ['#'] and its digits. *)
Definition marker_text (m : nat) : str := hash_char :: u8_to_string m.

(** The file-name part a template stands for. *)
Definition render (markers : list nat) (literal_blocks : list str) : str :=
  fill literal_blocks (map marker_text markers).

Definition marker_in_range (max_marker_index m : nat) : Prop :=
  1 <= m <= max_marker_index.

(** ** The marker search *)

Lemma find_marker_Some max t k :
  find_marker max t = Some k ->
  marker_in_range max k /\ is_prefix_of (u8_to_string k) t = true /\
  forall k', k < k' <= max -> is_prefix_of (u8_to_string k') t = false.
Proof.
  unfold marker_in_range. induction max as [|m IH]; simpl; [done|].
  destruct (is_prefix_of (u8_to_string (S m)) t) eqn:E.
  - intros [= <-]. split; [lia|]. split; [done|]. lia.
  - intros Hk. destruct (IH Hk) as (Hr & Hp & Hmax). split; [lia|]. split; [done|].
    intros k' Hk'. destruct (decide (k' = S m)) as [->|]; [done|]. apply Hmax. lia.
Qed.

Lemma find_marker_None max t :
  find_marker max t = None -> forall k, marker_in_range max k -> is_prefix_of (u8_to_string k) t = false.
Proof.
  unfold marker_in_range. induction max as [|m IH]; simpl; [lia|].
  destruct (is_prefix_of (u8_to_string (S m)) t) eqn:E; [done|].
  intros Hn k Hk. destruct (decide (k = S m)) as [->|]; [done|]. apply IH; [done|lia].
Qed.

(** ** One step of the loop *)

(** What a marker hit cuts out of the remainder: the block before the
    ['#'], the marker text, and the new remainder. *)
Lemma marker_step_split max rem o hp k :
  str_find [hash_char] (drop o rem) = Some hp ->
  find_marker max (drop (o + hp + 1) rem) = Some k ->
  rem = take (o + hp) rem ++ marker_text k ++ drop (o + hp + length (u8_to_string k) + 1) rem.
Proof.
  intros Hf Hm. destruct (find_marker_Some _ _ _ Hm) as (_ & Hp & _).
  apply is_prefix_of_true in Hp as [r Hr].
  pose proof (str_find_char_at _ _ _ Hf) as Hat. rewrite !drop_drop in Hat.
  rewrite <-(take_drop (o + hp) rem) at 1. f_equal.
  rewrite Hat. unfold marker_text. simpl. f_equal.
  replace (o + S hp) with (o + hp + 1) by lia. rewrite Hr. f_equal.
  replace (o + hp + length (u8_to_string k) + 1) with (o + hp + 1 + length (u8_to_string k))
    by lia.
  by rewrite <-drop_drop, Hr, drop_app_length.
Qed.

(** ** The loop invariant: every state renders to the same template *)

Lemma compile_loop_render fuel max rem o ms bs rem' ms' bs' :
  compile_loop fuel max rem o ms bs = Some (Ok (rem', ms', bs')) ->
  length ms = length bs ->
  length ms' = length bs' /\
  render ms' (bs' ++ [rem']) = render ms (bs ++ [rem]) /\
  (Forall (marker_in_range max) ms -> Forall (marker_in_range max) ms').
Proof.
  revert rem o ms bs. induction fuel as [|fuel IH]; intros rem o ms bs H Hlen;
    simpl in H; [done|].
  destruct (is_char_boundary rem o); simpl in H; [|done].
  destruct (str_find _ _) as [hp|] eqn:Hf; [|by injection H as <- <- <-].
  destruct (find_marker _ _) as [k|] eqn:Hm; [|by apply (IH _ _ _ _ H)].
  destruct (IH _ _ _ _ H) as (Hl & Hr & Hrange); [rewrite !length_app; simpl; lia|].
  split; [done|]. split.
  - rewrite Hr. unfold render. rewrite map_app, <-app_assoc. simpl.
    rewrite fill_snoc by (by rewrite length_map).
    by rewrite <-(marker_step_split _ _ _ _ _ Hf Hm).
  - intros Hms. apply Hrange, Forall_app. split; [done|].
    constructor; [|done]. apply (proj1 (find_marker_Some _ _ _ Hm)).
Qed.

(** A compiled template has one block more than markers, and every marker
    is in [1..max_marker_index]. *)
Lemma compile_wf (t : str) (max : nat) (tpl : DestinationPathTemplate) :
  compile t max = Some (Ok tpl) ->
  length (literal_blocks tpl) = S (length (markers tpl)) /\
  Forall (marker_in_range max) (markers tpl).
Proof.
  unfold compile, split_at. intros H.
  destruct (compile_loop _ _ _ _ _ _) as [[[[rem ms] bs]|e]|] eqn:E; simpl in H; [|done..].
  injection H as <-. simpl. rewrite length_app. simpl.
  destruct (compile_loop_render _ _ _ _ _ _ _ _ _ E) as (Hl & _ & Hrange); [done|].
  split; [lia|by apply Hrange].
Qed.

(** The directory of a compiled template is the text up to the last
    ['/'], and no block contains a ['/']. *)
Lemma compile_paths (t : str) (max : nat) (tpl : DestinationPathTemplate) :
  compile t max = Some (Ok tpl) ->
  directory tpl = take (last_sep_split slash_char t) t /\
  Forall (fun b => slash_char ∉ b) (literal_blocks tpl).
Proof.
  unfold compile, split_at. intros H.
  destruct (compile_loop _ _ _ _ _ _) as [[[[rem ms] bs]|e]|] eqn:E; simpl in H; [|done..].
  injection H as <-. simpl. split; [done|].
  destruct (compile_loop_render _ _ _ _ _ _ _ _ _ E) as (Hl & Hr & _); [done|].
  apply Forall_forall. intros b Hb Hx. apply (last_sep_split_file slash_char t).
  assert (Hf : render ms (bs ++ [rem]) = drop (last_sep_split slash_char t) t) by (by rewrite Hr).
  rewrite <-Hf.
  apply (fill_elem_block _ _ _ b); [rewrite length_app, length_map; simpl; lia|done..].
Qed.

(** C3. Round trip of [compile]: the directory followed by the blocks with
    ['#k'] between them gives back the template; there is one block more
    than markers, and every marker is in [1..max_marker_index]. *)
Theorem compile_round_trip (t : str) (max : nat) (tpl : DestinationPathTemplate) :
  compile t max = Some (Ok tpl) ->
  directory tpl ++ render (markers tpl) (literal_blocks tpl) = t /\
  length (literal_blocks tpl) = S (length (markers tpl)) /\
  Forall (marker_in_range max) (markers tpl).
Proof.
  unfold compile, split_at. intros H.
  destruct (compile_loop _ _ _ _ _ _) as [[[[rem ms] bs]|e]|] eqn:E; simpl in H; [|done..].
  injection H as <-. simpl.
  destruct (compile_loop_render _ _ _ _ _ _ _ _ _ E) as (Hl & Hr & Hrange); [done|].
  split; [|split].
  - rewrite Hr. unfold render. simpl. apply take_drop.
  - rewrite length_app. simpl. lia.
  - by apply Hrange.
Qed.

(** ** [substitute] *)

Definition fragment_for (fragments_values : list str) (m : nat) : str :=
  fragments_values !!! (m - 1).

Lemma substitute_loop_ok frs ms bs acc :
  length ms = length bs -> Forall (fun m => 1 <= m <= length frs) ms ->
  substitute_loop frs (zip ms bs) acc = Ok (fill (acc :: bs) (map (fragment_for frs) ms)).
Proof.
  revert bs acc. induction ms as [|m ms IH]; intros [|b bs] acc Hlen Hms;
    cbn [length] in Hlen; try lia; [done|].
  apply Forall_cons in Hms as [Hm Hms].
  destruct (lookup_lt_is_Some_2 frs (m - 1)) as [f Hf]; [lia|].
  change (zip (m :: ms) (b :: bs)) with ((m, b) :: zip ms bs).
  cbn [substitute_loop]. rewrite decide_False by lia. rewrite Hf, IH by (lia || done).
  change (map (fragment_for frs) (m :: ms))
    with (fragment_for frs m :: map (fragment_for frs) ms).
  change (fill (acc :: b :: bs) (?c :: ?cs)) with (acc ++ c ++ fill (b :: bs) cs).
  rewrite !app_assoc, fill_app_head, <-!app_assoc.
  unfold fragment_for. by rewrite (list_lookup_total_correct _ _ _ Hf).
Qed.

Lemma substitute_loop_err frs ms bs acc :
  length ms = length bs -> ~ Forall (fun m => 1 <= m <= length frs) ms ->
  exists e, substitute_loop frs (zip ms bs) acc = Err e.
Proof.
  revert bs acc. induction ms as [|m ms IH]; intros [|b bs] acc Hlen Hms; simpl in *; try lia.
  - by destruct Hms.
  - case_decide; [by eexists|].
    destruct (frs !! (m - 1)) eqn:Hf; [|by eexists].
    apply IH; [lia|]. intros Hall. apply Hms. constructor; [|done].
    apply lookup_lt_Some in Hf. lia.
Qed.

(** On markers in [1..max] the loop can only fail on an index past the
    fragments. *)
Lemma substitute_loop_Err_index max frs ms bs acc e :
  Forall (marker_in_range max) ms -> substitute_loop frs (zip ms bs) acc = Err e ->
  exists m, m ∈ ms /\ e = IndexOutOfBounds (m - 1) (length frs) /\ length frs <= m - 1.
Proof.
  unfold marker_in_range. revert bs acc.
  induction ms as [|m ms IH]; intros [|b bs] acc Hms H; try done.
  apply Forall_cons in Hms as [Hm Hms]. cbn [zip substitute_loop] in H.
  rewrite decide_False in H by lia.
  destruct (frs !! (m - 1)) eqn:Hf.
  - destruct (IH _ _ Hms H) as (m' & Hin & He & Hlt). exists m'. split; [set_solver|done].
  - injection H as <-. exists m. split; [set_solver|]. split; [done|].
    by apply lookup_ge_None.
Qed.

(** What a successful [substitute] builds on a template with one block
    more than markers. *)
Lemma substitute_Ok_eq (t : DestinationPathTemplate) (frs : list str) (r : str) :
  length (literal_blocks t) = S (length (markers t)) -> substitute t frs = Ok r ->
  r = path_join (directory t) (fill (literal_blocks t) (map (fragment_for frs) (markers t))) /\
  Forall (fun m => 1 <= m <= length frs) (markers t).
Proof.
  intros Hlen H. unfold substitute in H. destruct t as [dir ms [|b0 bs]]; simpl in *; [lia|].
  rewrite drop_0 in H.
  destruct (decide (Forall (fun m => 1 <= m <= length frs) ms)) as [Hall|Hn].
  - rewrite substitute_loop_ok in H by (lia || done). by injection H as <-.
  - destruct (substitute_loop_err frs ms bs b0 ltac:(lia) Hn) as [e He]. by rewrite He in H.
Qed.

Lemma substitute_Ok (t : DestinationPathTemplate) (frs : list str) :
  length (literal_blocks t) = S (length (markers t)) ->
  Forall (fun m => 1 <= m <= length frs) (markers t) -> exists r, substitute t frs = Ok r.
Proof.
  intros Hlen Hall. unfold substitute.
  destruct t as [dir ms [|b0 bs]]; simpl in *; [lia|].
  rewrite drop_0, substitute_loop_ok by (lia || done). by eexists.
Qed.

(** C15. [substitute] succeeds exactly when every marker indexes one of
    the fragments; otherwise it reports an error (the source panics). *)
Theorem substitute_Ok_iff (t : DestinationPathTemplate) (frs : list str) :
  length (literal_blocks t) = S (length (markers t)) ->
  (exists r, substitute t frs = Ok r) <-> Forall (fun m => 1 <= m <= length frs) (markers t).
Proof.
  intros Hlen. split; [|by apply substitute_Ok].
  intros [r Hr]. destruct (decide (Forall (fun m => 1 <= m <= length frs) (markers t))) as [|Hn];
    [done|].
  unfold substitute in Hr. destruct t as [dir ms [|b0 bs]]; simpl in *; [lia|].
  rewrite drop_0 in Hr. destruct (substitute_loop_err frs ms bs b0 ltac:(lia) Hn) as [e He].
  by rewrite He in Hr.
Qed.

(** C16. Bounds of the panic: on a template compiled with
    [max_marker_index = max], [substitute] never underflows in
    [*marker_index as usize - 1] (markers are at least 1); its only panic
    is an index out of bounds, with the index below [max], so below 255
    when [max] is a [u8]. *)
Theorem substitute_panic_bounds (t : str) (max : nat) (tpl : DestinationPathTemplate)
    (frs : list str) (e : panic) :
  compile t max = Some (Ok tpl) -> substitute tpl frs = Err e ->
  exists i, e = IndexOutOfBounds i (length frs) /\ length frs <= i < max.
Proof.
  intros Hc H. destruct (compile_wf _ _ _ Hc) as [Hlen Hrange].
  unfold substitute in H. destruct tpl as [dir ms [|b0 bs]]; simpl in *; [lia|].
  rewrite drop_0 in H. destruct (substitute_loop frs (zip ms bs) b0) as [r|e'] eqn:E;
    [done|]. injection H as <-.
  destruct (substitute_loop_Err_index _ _ _ _ _ _ Hrange E) as (m & Hin & -> & Hlt).
  exists (m - 1). split; [done|]. apply Forall_forall with (x := m) in Hrange; [|done].
  unfold marker_in_range in Hrange. lia.
Qed.

(** C8. What [substitute] builds: the directory joined with the blocks
    and, in place of marker [k], fragment [k]. *)
Theorem substitute_result (t : DestinationPathTemplate) (frs : list str) :
  length (literal_blocks t) = S (length (markers t)) ->
  Forall (fun m => 1 <= m <= length frs) (markers t) ->
  substitute t frs =
    Ok (path_join (directory t) (fill (literal_blocks t) (map (fragment_for frs) (markers t)))).
Proof.
  intros Hlen Hall. unfold substitute.
  destruct t as [dir ms [|b0 bs]]; simpl in *; [lia|].
  rewrite drop_0, substitute_loop_ok by (lia || done). done.
Qed.

(** [substitute] joins the name to the directory with [Path::join],
    not by concatenation: a fragment that starts with ['/'] makes the name
    absolute and replaces the template's directory, so
    [compile("out/#1").substitute(["/etc/passwd"])] is ["/etc/passwd"],
    not ["out//etc/passwd"]. *)
Example substitute_absolute_fragment :
  compile "out/#1" 1 = Some (Ok (mk_template "out/" [1] [""; ""])) /\
  substitute (mk_template "out/" [1] [""; ""]) ["/etc/passwd"] = Ok "/etc/passwd" /\
  "/etc/passwd" <> directory (mk_template "out/" [1] [""; ""]) ++ "/etc/passwd".
Proof. split; [|split]; vm_compute; [reflexivity|reflexivity|discriminate]. Qed.

(** ** Witnesses *)

Lemma compile_round_trip_witness :
  compile "dir/file_#2.#1" 2 = Some (Ok (mk_template "dir/" [2; 1] ["file_"; "."; ""])) /\
  directory (mk_template "dir/" [2; 1] ["file_"; "."; ""])
    ++ render [2; 1] ["file_"; "."; ""] = "dir/file_#2.#1".
Proof.
  assert (H : compile "dir/file_#2.#1" 2 = Some (Ok (mk_template "dir/" [2; 1] ["file_"; "."; ""])))
    by (vm_compute; reflexivity).
  split; [exact H|]. exact (proj1 (compile_round_trip _ _ _ H)).
Defined.

Lemma substitute_Ok_iff_witness :
  length (literal_blocks (mk_template "" [1] [""; ""]))
    = S (length (markers (mk_template "" [1] [""; ""]))) /\
  ~ (exists r, substitute (mk_template "" [1] [""; ""]) [] = Ok r).
Proof.
  assert (Hl : length (literal_blocks (mk_template "" [1] [""; ""]))
               = S (length (markers (mk_template "" [1] [""; ""])))) by reflexivity.
  split; [exact Hl|]. rewrite (substitute_Ok_iff _ _ Hl).
  intros Hall. apply Forall_inv in Hall. simpl in Hall. lia.
Defined.

Lemma substitute_result_witness :
  substitute (mk_template "dir/" [2; 1] ["file_"; "."; ""]) ["meow"; "oink"]
    = Ok "dir/file_oink.meow".
Proof.
  rewrite substitute_result; [reflexivity|reflexivity|].
  repeat constructor; simpl; lia.
Defined.

Lemma substitute_panic_bounds_witness :
  compile "#2" 2 = Some (Ok (mk_template "" [2] [""; ""])) /\
  substitute (mk_template "" [2] [""; ""]) ["a"] = Err (IndexOutOfBounds 1 1) /\
  1 <= 1 < 2.
Proof.
  assert (Hc : compile "#2" 2 = Some (Ok (mk_template "" [2] [""; ""]))) by (vm_compute; reflexivity).
  assert (Hs : substitute (mk_template "" [2] [""; ""]) ["a"] = Err (IndexOutOfBounds 1 1))
    by (vm_compute; reflexivity).
  split; [exact Hc|]. split; [exact Hs|].
  destruct (substitute_panic_bounds _ _ _ _ _ Hc Hs) as (i & [= <-] & Hi). exact Hi.
Defined.

(** ** The unit tests and doc examples of [destination_path_template.rs] *)

Module Tests.

Definition compiles_to (path_pattern : str) (max_marker_index : nat)
    (expected : DestinationPathTemplate) : bool :=
  bool_decide (compile path_pattern max_marker_index = Some (Ok expected)).

(** [fn compile] of [mod test_destination_path_pattern] *)
Definition test_compile : bool :=
  compiles_to "file_#1_name.#2" 2 (mk_template "" [1; 2] ["file_"; "_name."; ""]) &&
  compiles_to "#1#2#1#1#2" 2 (mk_template "" [1; 2; 1; 1; 2] (replicate 6 "")) &&
  compiles_to "#1#12#123#1#123" 12
    (mk_template "" [1; 12; 12; 1; 12] [""; ""; ""; "3"; ""; "3"]) &&
  compiles_to "path/to/file_##1.#2" 5 (mk_template "path/to/" [1; 2] ["file_#"; "."; ""]) &&
  compiles_to "path#1/#1#2.png" 3 (mk_template "path#1/" [1; 2] [""; ""; ".png"]) &&
  compiles_to "/absolute/path/#20.#2" 20 (mk_template "/absolute/path/" [20; 2] [""; "."; ""]) &&
  compiles_to "/file_in_root#1.png" 1 (mk_template "/" [1] ["file_in_root"; ".png"]).

Definition substitutes_to (path_pattern : str) (max_marker_index : nat)
    (fragments_values : list str) (expected : result panic str) : bool :=
  match compile path_pattern max_marker_index with
  | Some (Ok t) => bool_decide (substitute t fragments_values = expected)
  | _ => false
  end.

(** [fn substitute], [fn substitute_out_of_range] (a panic: an [Err]) and
    the doc examples of [compile] and [substitute]. *)
Definition test_substitute : bool :=
  substitutes_to "dir/file_#2.#1" 2 ["meow"; "oink"] (Ok "dir/file_oink.meow") &&
  substitutes_to "dir/file_#2.#1" 2 ["#2"; "#1"] (Ok "dir/file_#1.#2") &&
  substitutes_to "#1" 1 [] (Err (IndexOutOfBounds 0 0)) &&
  substitutes_to "rust/version-#1.#2" 2 ["1"; "75"] (Ok "rust/version-1.75") &&
  substitutes_to "file#1.#2" 1 ["hello"; "world"] (Ok "filehello.#2") &&
  bool_decide ((fun r => x ← r; Ok (directory x)) <$> compile "rust/version-#1-#2" 2
                 = Some (Ok "rust/")).

(** The model passes the unit tests of [destination_path_template.rs]
    ([compile], [substitute], [substitute_out_of_range] as an [Err]) and
    its doc examples, including the marker disambiguation of
    ["#1#12#123#1#123"] with [max_marker_index = 12]. *)
Example template_unit_tests_pass : test_compile && test_substitute = true.
Proof. vm_compute. reflexivity. Qed.

End Tests.

End DestinationPathTemplate.
