(* ===== verification/CompileTermination.v ===== *)
(** * When [DestinationPathTemplate::compile] returns
    (src/lib/src/destination_path_template.rs, lines 36-55)

    The [while let] loop of [compile] sets [current_offset_in_filename =
    hashtag_position + 1] after a ['#'] that starts no marker, although
    [hashtag_position] counts from the old offset.  This file compares the
    loop with [scan], the same loop with the offset moved to
    [current_offset_in_filename + hashtag_position + 1], and shows, for a
    file name that is a [&str] (valid UTF-8, [utf8]):
    - [scan] always terminates, within [length filename + 1] iterations;
    - the two loops differ only after a second literal ['#'] (one that
      starts no marker) between two markers: up to that point they take the
      same steps (every offset is [0] or just after a ['#'], a character
      boundary), and from that point the source's loop cycles between
      offsets in [1..a] for the ['#'] at [a]: forever, or until one of them
      is not a character boundary, where [&filename_remainder[offset..]]
      panics; that needs a non-ASCII byte before the ['#'];
    - so [compile] returns a template exactly when no two consecutive
      ['#'] of the file name are both literal, and then it returns what
      [scan] returns; on an ASCII name it otherwise hangs. *)

From S2P Require Import Prelude RustStr DestinationPathTemplate.

Module CompileTermination.
Import DestinationPathTemplate.

(** ** The reference loop and the condition on which the source's differs *)

(** The marker loop with the offset kept absolute: a literal ['#'] moves
    the scan just past it. *)
Fixpoint scan (fuel max_marker_index : nat) (filename_remainder : str)
    (offset : nat) (markers : list nat) (literal_blocks : list str)
    : option (str * list nat * list str) :=
  match fuel with
  | 0 => None
  | S fuel =>
      match str_find [hash_char] (drop offset filename_remainder) with
      | None => Some (filename_remainder, markers, literal_blocks)
      | Some hp =>
          match find_marker max_marker_index (drop (offset + hp + 1) filename_remainder) with
          | Some k =>
              scan fuel max_marker_index
                (drop (offset + hp + length (u8_to_string k) + 1) filename_remainder) 0
                (markers ++ [k]) (literal_blocks ++ [take (offset + hp) filename_remainder])
          | None => scan fuel max_marker_index filename_remainder (offset + hp + 1)
                      markers literal_blocks
          end
      end
  end.

Definition scan_fuel (filename : str) : nat := S (length filename).

(** [compile] with [scan] in place of the source's loop. *)
Definition compile_ref (path_pattern : str) (max_marker_index : nat)
    : option DestinationPathTemplate :=
  let '(directory, filename) := split_at (last_sep_split slash_char path_pattern) path_pattern in
  '(rem, ms, bs) ← scan (scan_fuel filename) max_marker_index filename 0 [] [];
  Some (mk_template directory ms (bs ++ [rem])).

(** Does [scan] meet a second literal ['#'] before the next marker?
    [missed] records a first one since the last marker. *)
Fixpoint double_miss_from (fuel max_marker_index : nat) (rem : str) (offset : nat)
    (missed : bool) : bool :=
  match fuel with
  | 0 => false
  | S fuel =>
      match str_find [hash_char] (drop offset rem) with
      | None => false
      | Some hp =>
          match find_marker max_marker_index (drop (offset + hp + 1) rem) with
          | Some k => double_miss_from fuel max_marker_index
                        (drop (offset + hp + length (u8_to_string k) + 1) rem) 0 false
          | None => missed || double_miss_from fuel max_marker_index rem (offset + hp + 1) true
          end
      end
  end.

Definition double_miss (max_marker_index : nat) (filename : str) : bool :=
  double_miss_from (scan_fuel filename) max_marker_index filename 0 false.

(** Every ['#'] before position [n] is literal. *)
Definition misses_below (max_marker_index : nat) (rem : str) (n : nat) : Prop :=
  forall p, p < n -> rem !! p = Some hash_char ->
  find_marker max_marker_index (drop (S p) rem) = None.

(** A literal ['#'] at position [p]: one that starts no marker. *)
Definition literal_hash (max_marker_index : nat) (s : str) (p : nat) : Prop :=
  s !! p = Some hash_char /\ find_marker max_marker_index (drop (S p) s) = None.

Definition no_hash_between (s : str) (p q : nat) : Prop :=
  forall r, p < r < q -> s !! r <> Some hash_char.

(** Two consecutive ['#'] of [s], both literal. *)
Definition consecutive_literal_hashes (max_marker_index : nat) (s : str) : Prop :=
  exists p q, p < q /\ literal_hash max_marker_index s p /\
    literal_hash max_marker_index s q /\ no_hash_between s p q.

(** What [double_miss_from] knows at offset [o]: right after a marker the
    offset is [0]; after a first literal ['#'] at [a], it is [a + 1] and no
    ['#'] comes before [a]. *)
Definition scan_state_ok (max_marker_index : nat) (rem : str) (o : nat) (missed : bool)
    : Prop :=
  if missed then exists a, o = S a /\ literal_hash max_marker_index rem a /\
                           forall r, r < a -> rem !! r <> Some hash_char
  else o = 0.

(** ** The ['#'] search from an offset *)

Lemma find_hash_Some rem o hp :
  str_find [hash_char] (drop o rem) = Some hp ->
  rem !! (o + hp) = Some hash_char /\ o + hp < length rem /\
  forall p, o <= p < o + hp -> rem !! p <> Some hash_char.
Proof.
  intros H. destruct (str_find_char_Some _ _ _ H) as [Hat Hmin].
  rewrite lookup_drop in Hat. split; [done|]. split; [by eapply lookup_lt_Some|].
  intros p Hp. replace p with (o + (p - o)) by lia. rewrite <-lookup_drop. apply Hmin. lia.
Qed.

Lemma find_hash_None rem o :
  str_find [hash_char] (drop o rem) = None -> forall p, o <= p -> rem !! p <> Some hash_char.
Proof.
  intros H p Hp. replace p with (o + (p - o)) by lia. rewrite <-lookup_drop.
  by apply str_find_char_None.
Qed.

(** The next ['#'] after [o] is at or before any ['#'] after [o]. *)
Lemma find_hash_le rem o hp a :
  str_find [hash_char] (drop o rem) = Some hp -> o <= a -> rem !! a = Some hash_char ->
  o + hp <= a.
Proof.
  intros H Ho Ha. destruct (find_hash_Some _ _ _ H) as (_ & _ & Hmin).
  destruct (decide (o + hp <= a)); [done|]. by destruct (Hmin a); [lia|].
Qed.

Lemma misses_below_step max rem o hp :
  misses_below max rem o -> str_find [hash_char] (drop o rem) = Some hp ->
  find_marker max (drop (o + hp + 1) rem) = None -> misses_below max rem (S (o + hp)).
Proof.
  intros Hb Hf Hm p Hp Hat. destruct (find_hash_Some _ _ _ Hf) as (_ & _ & Hmin).
  destruct (decide (p < o)); [by apply Hb|].
  destruct (decide (p = o + hp)) as [->|]; [by rewrite <-Nat.add_1_r|].
  by destruct (Hmin p); [lia|].
Qed.

(** ** The source's loop, compared with [scan] *)

(** A marker drops ASCII bytes only, so the new remainder is a [&str]. *)
Lemma utf8_after_marker max rem o hp k :
  utf8 rem = true -> str_find [hash_char] (drop o rem) = Some hp ->
  find_marker max (drop (o + hp + 1) rem) = Some k ->
  utf8 (drop (o + hp + length (u8_to_string k) + 1) rem) = true.
Proof.
  intros Hu Hf Hm. rewrite (marker_step_split _ _ _ _ _ Hf Hm) in Hu.
  apply (utf8_drop_ascii_block _ _ _ Hu); [done|apply marker_text_ascii].
Qed.

(** Stuck: once every ['#'] up to [a] is literal and the offset is in
    [1..a], the search always finds one of those, and the new offset
    [hashtag_position + 1] is again in [1..a]: the loop runs forever,
    unless one of those offsets is not a character boundary, where the
    slice panics. *)
Lemma compile_loop_stuck max rem a ms bs :
  rem !! a = Some hash_char -> misses_below max rem (S a) ->
  forall fuel o, 1 <= o <= a ->
  compile_loop fuel max rem o ms bs = None \/
  exists i, 1 <= i <= a /\ is_char_boundary rem i = false /\
    compile_loop fuel max rem o ms bs = Some (Err (NotCharBoundary i)).
Proof.
  intros Ha Hb fuel. induction fuel as [|fuel IH]; intros o Ho; [by left|]. cbn [compile_loop].
  destruct (is_char_boundary rem o) eqn:Hcb; cbn [negb]; [|right; by exists o].
  destruct (str_find _ _) as [hp|] eqn:Hf; [|by destruct (find_hash_None _ _ Hf a ltac:(lia) Ha)].
  pose proof (find_hash_le rem o hp a Hf ltac:(lia) Ha).
  destruct (find_hash_Some _ _ _ Hf) as (Hat & _).
  rewrite Nat.add_1_r, (Hb (o + hp)) by (done || lia). apply IH. lia.
Qed.

(** Up to a second literal ['#'] the two loops take the same steps: before
    a first literal ['#'] the offset is [0], after it the offset is the
    absolute one in both, just after a ['#'], so a character boundary. *)
Lemma compile_loop_agrees fuel max rem o missed ms bs r :
  utf8 rem = true -> is_char_boundary rem o = true -> (missed = false -> o = 0) ->
  double_miss_from fuel max rem o missed = false ->
  scan fuel max rem o ms bs = Some r ->
  compile_loop fuel max rem o ms bs = Some (Ok r).
Proof.
  revert rem o missed ms bs. induction fuel as [|fuel IH];
    intros rem o missed ms bs Hu Hcb Ho Hd Hs; [done|].
  cbn [compile_loop scan double_miss_from] in *. rewrite Hcb. cbn [negb].
  destruct (str_find _ _) as [hp|] eqn:Hf; [|by injection Hs as <-].
  destruct (find_marker _ _) as [k|] eqn:Hm;
    [by apply (IH _ _ false); [apply (utf8_after_marker _ _ _ _ _ Hu Hf Hm)| | | |]|].
  apply orb_false_iff in Hd as [-> Hd]. rewrite (Ho eq_refl), Nat.add_0_l in *.
  apply (IH _ _ true); [done| |done..]. rewrite Nat.add_1_r.
  apply (is_char_boundary_after_ascii _ _ hash_char Hu); [|apply hash_char_ascii].
  apply (find_hash_Some _ 0 _ Hf).
Qed.

(** After a second literal ['#'] the source's loop never returns: it runs
    forever, or it panics, which needs a non-ASCII byte. *)
Lemma compile_loop_double_miss fuel max rem o missed ms bs :
  (missed = false -> o = 0) ->
  (missed = true -> 1 <= o <= length rem /\ misses_below max rem o) ->
  double_miss_from fuel max rem o missed = true ->
  forall fuel', compile_loop fuel' max rem o ms bs = None \/
    (ascii_str rem = false /\ exists i, compile_loop fuel' max rem o ms bs = Some (Err (NotCharBoundary i))).
Proof.
  revert rem o missed ms bs. induction fuel as [|fuel IH];
    intros rem o missed ms bs Ho Hb Hd [|fuel']; try done; [by left|].
  cbn [compile_loop double_miss_from] in *.
  destruct (is_char_boundary rem o) eqn:Hcb; cbn [negb].
  2:{ right. split; [|by eexists]. destruct (ascii_str rem) eqn:Ha; [|done].
      rewrite is_char_boundary_ascii in Hcb; [done..|].
      destruct missed; [apply Hb|rewrite (Ho eq_refl)]; lia. }
  destruct (str_find _ _) as [hp|] eqn:Hf; [|done].
  destruct (find_hash_Some _ _ _ Hf) as (Hat & Hlt & _).
  destruct (find_marker _ _) as [k|] eqn:Hm.
  { destruct (IH _ 0 false (ms ++ [k]) (bs ++ [take (o + hp) rem]) (fun _ => eq_refl)
                ltac:(discriminate) Hd fuel') as [|[Ha Hp]]; [by left|].
    right. split; [|done]. destruct (ascii_str rem) eqn:Ha'; [|done].
    by rewrite ascii_str_drop in Ha. }
  destruct missed.
  - destruct (Hb eq_refl) as [Ho1 Hbelow].
    destruct (compile_loop_stuck _ _ (o + hp) ms bs Hat (misses_below_step _ _ o _ Hbelow Hf Hm)
                fuel' (hp + 1) ltac:(lia)) as [|(i & Hi & Hcb' & Hp)]; [by left|].
    right. split; [|by eexists]. destruct (ascii_str rem) eqn:Ha; [|done].
    rewrite is_char_boundary_ascii in Hcb'; [done..|lia].
  - specialize (Ho eq_refl). subst o. rewrite Nat.add_0_l in *.
    apply (IH _ _ true); [done| |done]. intros _. split; [lia|].
    rewrite Nat.add_1_r. apply (misses_below_step _ _ 0 hp); [|done..]. intros p Hp. lia.
Qed.

(** [scan] makes progress: each iteration either moves the offset past a
    ['#'] or drops at least the ['#'] of a marker. *)
Lemma scan_total fuel max rem o ms bs :
  length rem - o < fuel -> is_Some (scan fuel max rem o ms bs).
Proof.
  revert rem o ms bs. induction fuel as [|fuel IH]; intros rem o ms bs Hf; [lia|].
  cbn [scan]. destruct (str_find _ _) as [hp|] eqn:Hs; [|by eexists].
  destruct (find_hash_Some _ _ _ Hs) as (_ & Hlt & _).
  destruct (find_marker _ _); apply IH; rewrite ?length_drop; lia.
Qed.

Lemma compile_loop_more_fuel fuel fuel' max rem o ms bs r :
  fuel <= fuel' -> compile_loop fuel max rem o ms bs = Some r ->
  compile_loop fuel' max rem o ms bs = Some r.
Proof.
  revert fuel' rem o ms bs. induction fuel as [|fuel IH];
    intros [|fuel'] rem o ms bs Hle H; try done; [lia|].
  cbn [compile_loop] in *. repeat case_match; try done; apply (IH fuel'); (done || lia).
Qed.

(** ** The double literal ['#'], declaratively *)

Lemma literal_hash_drop max s n p : literal_hash max (drop n s) p <-> literal_hash max s (n + p).
Proof. unfold literal_hash. by rewrite lookup_drop, drop_drop, Nat.add_succ_r. Qed.

(** The digits of a marker hold no ['#']. *)
Lemma marker_digits_no_hash max rem o hp k :
  str_find [hash_char] (drop o rem) = Some hp ->
  find_marker max (drop (o + hp + 1) rem) = Some k ->
  no_hash_between rem (o + hp) (o + hp + length (u8_to_string k) + 1).
Proof.
  intros Hf Hm r Hr Hat. destruct (find_hash_Some _ _ _ Hf) as (_ & Hlt & _).
  rewrite (marker_step_split _ _ _ _ _ Hf Hm), lookup_app_r in Hat
    by (rewrite length_take; lia).
  rewrite length_take, Nat.min_l in Hat by lia. unfold marker_text in Hat. cbn [app] in Hat.
  rewrite lookup_cons_ne_0, lookup_app_l in Hat by lia.
  apply list_elem_of_lookup_2 in Hat. by apply (u8_to_string_not_hash k).
Qed.

Lemma no_pair_at_end max rem o missed :
  scan_state_ok max rem o missed -> str_find [hash_char] (drop o rem) = None ->
  ~ consecutive_literal_hashes max rem.
Proof.
  intros Hst Hf (p & q & Hpq & [Hp _] & [Hq _] & _). destruct missed; simpl in Hst.
  - destruct Hst as (a & -> & _ & Hbefore).
    destruct (decide (S a <= q)); [by apply (find_hash_None _ _ Hf q)|].
    by apply (Hbefore p); [lia|].
  - subst o. by apply (find_hash_None _ _ Hf p); [lia|].
Qed.

(** A marker only drops ['#'] that belong to no pair. *)
Lemma pair_after_marker max rem o missed hp k :
  scan_state_ok max rem o missed ->
  str_find [hash_char] (drop o rem) = Some hp ->
  find_marker max (drop (o + hp + 1) rem) = Some k ->
  consecutive_literal_hashes max rem <->
  consecutive_literal_hashes max (drop (o + hp + length (u8_to_string k) + 1) rem).
Proof.
  intros Hst Hf Hm. pose proof (marker_digits_no_hash _ _ _ _ _ Hf Hm) as Hdig.
  set (n := o + hp + length (u8_to_string k) + 1) in *.
  destruct (find_hash_Some _ _ _ Hf) as (Hat & Hlt & Hmin).
  rewrite Nat.add_1_r in Hm. split; intros (p & q & Hpq & Hp & Hq & Hbt).
  - destruct (decide (n <= p)).
    + exists (p - n), (q - n). rewrite !literal_hash_drop, !Nat.add_sub_assoc, !Nat.add_sub_swap,
        !Nat.sub_diag by lia. split; [lia|]. split; [done|]. split; [done|].
      intros r Hr. rewrite lookup_drop. apply Hbt. lia.
    + exfalso. assert (p <> o + hp) by (intros ->; destruct Hp as [_ Hp]; congruence).
      assert (p < o) as Hpo.
      { destruct (decide (p < o)); [done|]. destruct (decide (p < o + hp)).
        - by destruct (Hmin p); [lia|apply Hp].
        - by destruct (Hdig p); [lia|apply Hp]. }
      destruct missed; simpl in Hst; [|lia].
      destruct Hst as (a & -> & _ & Hbefore).
      assert (p = a) as -> by (destruct (decide (p < a)); [by destruct (Hbefore p), Hp|lia]).
      destruct (decide (q < S a + hp)); [by destruct (Hmin q); [lia|apply Hq]|].
      destruct (decide (q = S a + hp)) as [->|]; [destruct Hq as [_ Hq]; congruence|].
      by apply (Hbt (S a + hp)); [lia|].
  - exists (n + p), (n + q). rewrite <-!literal_hash_drop. split; [lia|].
    split; [done|]. split; [done|].
    intros r Hr. replace r with (n + (r - n)) by lia. rewrite <-lookup_drop. apply Hbt. lia.
Qed.

Lemma pair_at_second_miss max rem o hp :
  scan_state_ok max rem o true -> str_find [hash_char] (drop o rem) = Some hp ->
  find_marker max (drop (o + hp + 1) rem) = None -> consecutive_literal_hashes max rem.
Proof.
  intros (a & -> & Ha & _) Hf Hm. destruct (find_hash_Some _ _ _ Hf) as (Hat & _ & Hmin).
  exists a, (S a + hp). split; [lia|]. split; [done|]. split.
  - split; [done|]. by rewrite <-Nat.add_1_r.
  - intros r Hr. apply Hmin. lia.
Qed.

Lemma scan_state_first_miss max rem hp :
  str_find [hash_char] (drop 0 rem) = Some hp ->
  find_marker max (drop (0 + hp + 1) rem) = None -> scan_state_ok max rem (0 + hp + 1) true.
Proof.
  intros Hf Hm. destruct (find_hash_Some _ _ _ Hf) as (Hat & _ & Hmin).
  exists hp. split; [lia|]. split; [split; [done|by rewrite <-Nat.add_1_r]|].
  intros r Hr. apply Hmin. lia.
Qed.

Lemma double_miss_from_spec fuel max rem o missed :
  length rem - o < fuel -> scan_state_ok max rem o missed ->
  double_miss_from fuel max rem o missed = true <-> consecutive_literal_hashes max rem.
Proof.
  revert rem o missed. induction fuel as [|fuel IH]; intros rem o missed Hfuel Hst; [lia|].
  cbn [double_miss_from].
  destruct (str_find _ _) as [hp|] eqn:Hf.
  2:{ split; [done|]. intros HC. by destruct (no_pair_at_end _ _ _ _ Hst Hf HC). }
  destruct (find_hash_Some _ _ _ Hf) as (_ & Hlt & _).
  destruct (find_marker _ _) as [k|] eqn:Hm.
  - rewrite (pair_after_marker _ _ _ _ _ _ Hst Hf Hm). apply IH; [rewrite length_drop; lia|done].
  - destruct missed; [split; [intros _; by eapply pair_at_second_miss|done]|].
    simpl in Hst. subst o. apply IH; [lia|]. by apply scan_state_first_miss.
Qed.

Lemma double_miss_iff max s : double_miss max s = true <-> consecutive_literal_hashes max s.
Proof. apply double_miss_from_spec; [unfold scan_fuel; lia|done]. Qed.

(** ** The theorems *)

(** A [&str] file name: the source's loop returns (for some fuel) exactly
    when [scan] meets no second literal ['#'] between two markers. *)
Lemma compile_loop_terminates_double_miss (max : nat) (filename : str) (ms : list nat)
    (bs : list str) :
  utf8 filename = true ->
  (exists fuel r, compile_loop fuel max filename 0 ms bs = Some (Ok r)) <->
  double_miss max filename = false.
Proof.
  intros Hu. split.
  - intros (fuel & r & H). destruct (double_miss _ _) eqn:E; [|done].
    destruct (compile_loop_double_miss (scan_fuel filename) max filename 0 false ms bs
                ltac:(done) ltac:(discriminate) E fuel) as [Hn|(_ & i & Hp)]; congruence.
  - intros Hd. destruct (scan_total (scan_fuel filename) max filename 0 ms bs) as [r Hr];
      [unfold scan_fuel; lia|].
    exists (scan_fuel filename), r. by apply (compile_loop_agrees _ _ _ _ false).
Qed.

(** C4. On a file name that is a [&str] (valid UTF-8), the marker loop of
    [compile] returns exactly when no two consecutive ['#'] of the name
    are both literal (start no marker with index in
    [1..max_marker_index]); on such a pair it never returns a template,
    whatever the fuel: it hangs, or panics on a non-ASCII name.  E.g.
    ["b##"], ["#a#"] and ["x#1#y#"] with [max_marker_index = 0] hang,
    ["é##"] panics, ["file_##1.#2"] returns. *)
Theorem compile_loop_terminates_iff (max : nat) (filename : str) (ms : list nat)
    (bs : list str) :
  utf8 filename = true ->
  (exists fuel r, compile_loop fuel max filename 0 ms bs = Some (Ok r)) <->
  ~ consecutive_literal_hashes max filename.
Proof.
  intros Hu. rewrite compile_loop_terminates_double_miss, <-double_miss_iff by done.
  split; [congruence|]. by destruct (double_miss max filename).
Qed.

(** [compile_fuel] is enough for every terminating run, and the run
    returns what [scan] returns. *)
Lemma compile_loop_fuel_enough max f ms bs :
  utf8 f = true -> double_miss max f = false ->
  exists r, scan (scan_fuel f) max f 0 ms bs = Some r /\
            compile_loop (compile_fuel f) max f 0 ms bs = Some (Ok r).
Proof.
  intros Hu Hd. destruct (scan_total (scan_fuel f) max f 0 ms bs) as [r Hr];
    [unfold scan_fuel; lia|].
  exists r. split; [done|]. apply (compile_loop_more_fuel (scan_fuel f));
    [unfold scan_fuel, compile_fuel; lia|]. by apply (compile_loop_agrees _ _ _ _ false).
Qed.

(** C6. On an ASCII file name the marker loop runs forever, whatever the
    fuel, exactly when two consecutive ['#'] are both literal: there the
    loop hangs rather than panics. *)
Theorem compile_loop_hangs_ascii (max : nat) (filename : str) (ms : list nat)
    (bs : list str) :
  ascii_str filename = true ->
  (forall fuel, compile_loop fuel max filename 0 ms bs = None) <->
  consecutive_literal_hashes max filename.
Proof.
  intros Ha. rewrite <-double_miss_iff. split.
  - intros Hn. destruct (double_miss max filename) eqn:E; [done|].
    destruct (compile_loop_fuel_enough max filename ms bs (ascii_str_utf8 _ Ha) E)
      as (r & _ & Hr). by rewrite Hn in Hr.
  - intros Hd fuel.
    by destruct (compile_loop_double_miss (scan_fuel filename) max filename 0 false ms bs
                   ltac:(done) ltac:(discriminate) Hd fuel) as [|[Hna _]]; [|congruence].
Qed.

(** The reference [compile_ref] always returns. *)
Lemma compile_ref_total (path_pattern : str) (max : nat) :
  is_Some (compile_ref path_pattern max).
Proof.
  unfold compile_ref, split_at. cbv beta iota.
  destruct (scan_total (scan_fuel (drop (last_sep_split slash_char path_pattern) path_pattern))
              max (drop (last_sep_split slash_char path_pattern) path_pattern) 0 [] [])
    as [[[rem ms] bs] ->]; [unfold scan_fuel; lia|].
  by eexists.
Qed.

(** The template [compile] returns, if it returns one. *)
Definition returned_template (r : option (result panic DestinationPathTemplate))
    : option DestinationPathTemplate :=
  match r with Some (Ok t) => Some t | _ => None end.

(** [compile] on a template without a double literal ['#'] returns what
    [compile_ref] does. *)
Lemma compile_Ok_ref (path_pattern : str) (max : nat) :
  utf8 path_pattern = true ->
  double_miss max (drop (last_sep_split slash_char path_pattern) path_pattern) = false ->
  compile path_pattern max = Ok <$> compile_ref path_pattern max.
Proof.
  intros Hu E. unfold compile, compile_ref, split_at. cbv beta iota.
  pose proof (utf8_file_part _ _ slash_char_ascii Hu) as Hf.
  by destruct (compile_loop_fuel_enough _ _ [] [] Hf E) as ([[rem ms] bs] & -> & ->).
Qed.

(** On a double literal ['#'], [compile] hangs or panics on a slice. *)
Lemma compile_double_miss (path_pattern : str) (max : nat) :
  double_miss max (drop (last_sep_split slash_char path_pattern) path_pattern) = true ->
  compile path_pattern max = None \/
  exists i, compile path_pattern max = Some (Err (NotCharBoundary i)).
Proof.
  intros E. unfold compile, split_at. cbv beta iota.
  destruct (compile_loop_double_miss _ _ _ 0 false [] [] ltac:(done) ltac:(discriminate) E
              (compile_fuel (drop (last_sep_split slash_char path_pattern) path_pattern)))
    as [->|(_ & i & ->)]; [by left|right; by exists i].
Qed.

(** [compile] does not return a template exactly on a double literal
    ['#']: it hangs, or panics on a slice. *)
Lemma compile_stuck_iff (path_pattern : str) (max : nat) :
  utf8 path_pattern = true ->
  (compile path_pattern max = None \/
   exists i, compile path_pattern max = Some (Err (NotCharBoundary i))) <->
  consecutive_literal_hashes max (drop (last_sep_split slash_char path_pattern) path_pattern).
Proof.
  intros Hu. rewrite <-double_miss_iff.
  destruct (double_miss _ _) eqn:E; [split; [done|intros _; by apply compile_double_miss]|].
  rewrite (compile_Ok_ref _ _ Hu E). destruct (compile_ref_total path_pattern max) as [t ->].
  split; [|done]. intros [|[i ?]]; discriminate.
Qed.

(** C7. [compile] is [compile_ref], the same function with the intended
    offset update: on a [&str] template whose file name has no double
    literal ['#'] it returns the template [compile_ref] returns, and on
    the others it returns none (it hangs, or panics on non-ASCII names);
    the fuel [compile_fuel] of the model is enough for every terminating
    run. *)
Theorem compile_eq_ref (path_pattern : str) (max : nat) :
  utf8 path_pattern = true ->
  returned_template (compile path_pattern max) =
    if double_miss max (drop (last_sep_split slash_char path_pattern) path_pattern)
    then None else compile_ref path_pattern max.
Proof.
  intros Hu. destruct (double_miss _ _) eqn:E.
  - by destruct (compile_double_miss _ _ E) as [->|[i ->]].
  - rewrite (compile_Ok_ref _ _ Hu E). by destruct (compile_ref _ _).
Qed.

(** The slice panic on a non-ASCII name: in ["é##"] the second probe
    starts at byte [1], inside the two bytes of ['é']. *)
Example compile_panics_non_ascii :
  compile "é##" 0 = Some (Err (NotCharBoundary 1)) /\
  compile "photos/фото_##.jpg" 1 = Some (Err (NotCharBoundary 1)).
Proof. split; vm_compute; reflexivity. Qed.

(** ** Witnesses *)

Lemma compile_loop_terminates_iff_witness :
  utf8 "file_##1.#2" = true /\ ~ consecutive_literal_hashes 5 "file_##1.#2" /\
  (exists fuel r, compile_loop fuel 5 "file_##1.#2" 0 [] [] = Some (Ok r)).
Proof.
  assert (Hu : utf8 "file_##1.#2" = true) by (vm_compute; reflexivity).
  assert (H : ~ consecutive_literal_hashes 5 "file_##1.#2").
  { rewrite <-double_miss_iff. vm_compute. discriminate. }
  split; [exact Hu|]. split; [exact H|].
  exact (proj2 (compile_loop_terminates_iff 5 "file_##1.#2" [] [] Hu) H).
Defined.

Lemma compile_loop_hangs_ascii_witness :
  ascii_str "b##" = true /\ consecutive_literal_hashes 0 "b##" /\
  forall fuel, compile_loop fuel 0 "b##" 0 [] [] = None.
Proof.
  assert (Ha : ascii_str "b##" = true) by (vm_compute; reflexivity).
  assert (H : consecutive_literal_hashes 0 "b##").
  { rewrite <-double_miss_iff. vm_compute. reflexivity. }
  split; [exact Ha|]. split; [exact H|].
  exact (proj2 (compile_loop_hangs_ascii 0 "b##" [] [] Ha) H).
Defined.

Lemma compile_eq_ref_witness :
  utf8 "out/#1##" = true /\ utf8 "out/a#2#1" = true /\
  returned_template (compile "out/#1##" 1) = None /\
  returned_template (compile "out/a#2#1" 1) = compile_ref "out/a#2#1" 1.
Proof.
  assert (H1 : utf8 "out/#1##" = true) by (vm_compute; reflexivity).
  assert (H2 : utf8 "out/a#2#1" = true) by (vm_compute; reflexivity).
  split; [exact H1|]. split; [exact H2|]. split.
  - rewrite (compile_eq_ref _ _ H1). vm_compute. reflexivity.
  - rewrite (compile_eq_ref _ _ H2). vm_compute. reflexivity.
Defined.

End CompileTermination.
