(* ===== verification/SourcePathPattern.v ===== *)
(** * [SourcePathPattern] (src/lib/src/source_path_pattern.rs)

    A directory prefix and a file-name pattern.  The component is written
    against the [WildcardMatcher] interface (the Rust code uses its
    [GlobStarPattern] only through [from], [wildcards_number],
    [match_string] and [Display]), so its theorems hold for any matcher
    satisfying [WildcardMatcherLaws]; the instance of [GlobStarPattern.v]
    runs the witnesses and the unit tests.

    [matching_files] reads the directory through [FileSystem], an abstract
    [std::fs::read_dir]: the listing may fail, each entry may fail to read,
    each entry's metadata may fail, and a name may not be valid UTF-8.  The
    three failures are the [?] exits of the source, in its order. *)

From S2P Require Import Prelude RustStr GlobStarPattern.

Module SourcePathPattern.

(** [std::fs::Metadata], as far as [matching_files] looks at it. *)
Record Metadata := mk_metadata { is_file : bool }.

(** A [std::fs::DirEntry]: its name, whether [file_name().to_str()] is
    [Some], and [metadata()] ([None]: the call fails). *)
Record DirEntry := mk_entry {
  file_name : str;
  file_name_utf8 : bool;
  metadata : option Metadata
}.

(** [std::fs::read_dir]: [None] when the directory cannot be read; each
    entry is [None] when reading it fails. *)
Record FileSystem := mk_fs { read_dir : str -> option (list (option DirEntry)) }.

(** The [anyhow] errors of [matching_files], with their context. *)
Inductive io_error :=
  | ReadDirFailed (directory_path : str)   (** "Failed to read {:#?} directory content" *)
  | ReadEntryFailed                        (** "Failed to read entry" *)
  | MetadataFailed (entry_path : str).     (** "Failed to get metadata for {:#?}" *)

#[global] Instance io_error_eq_dec : EqDecision io_error.
Proof. solve_decision. Defined.

(** The [Err] of [from_str]. *)
Definition wildcard_in_directory_error : str := "'*'-wildcard can only appear in a filename".

Section WithMatcher.
Context {P : Type} `{!WildcardMatcher P}.

(** [pub struct SourcePathPattern { directory: PathBuf, filename_pattern }] *)
Record SourcePathPattern := mk_source {
  directory : str;
  filename_pattern : P
}.

#[global] Instance SourcePathPattern_eq_dec `{!EqDecision P} : EqDecision SourcePathPattern.
Proof. solve_decision. Defined.

(** [wildcards_number]: [self.filename_pattern.wildcards_number()] *)
Definition wildcards_number (p : SourcePathPattern) : nat :=
  wm_wildcards (filename_pattern p).

(** [impl FromStr]: split after the last ['/'], reject a ['*'] in the
    directory part, compile the rest. *)
Definition from_str (string : str) : result str SourcePathPattern :=
  let '(directory_str, filename_pattern_str) :=
    split_at (last_sep_split slash_char string) string in
  if contains star_char directory_str then Err wildcard_in_directory_error
  else Ok (mk_source directory_str (wm_from filename_pattern_str)).

(** [impl Display]: the directory, then the file-name pattern. *)
Definition to_string (p : SourcePathPattern) : str :=
  directory p ++ wm_render (filename_pattern p).

(** The [for dir_entry in ...] loop of [matching_files]: an unreadable
    entry or metadata ends the loop with an error; a regular file whose
    UTF-8 name matches is pushed with its fragments. *)
Fixpoint matching_entries (p : SourcePathPattern) (directory_path : str)
    (entries : list (option DirEntry)) (result_acc : list (str * list str))
    : result io_error (list (str * list str)) :=
  match entries with
  | [] => Ok result_acc
  | None :: _ => Err ReadEntryFailed
  | Some entry_unwrapped :: rest =>
      match metadata entry_unwrapped with
      | None => Err (MetadataFailed (path_join directory_path (file_name entry_unwrapped)))
      | Some m =>
          if is_file m && file_name_utf8 entry_unwrapped then
            match wm_match (filename_pattern p) (file_name entry_unwrapped) with
            | Some match_info =>
                matching_entries p directory_path rest
                  (result_acc ++ [(path_join (directory p) (file_name entry_unwrapped),
                                   match_info)])
            | None => matching_entries p directory_path rest result_acc
            end
          else matching_entries p directory_path rest result_acc
      end
  end.

(** [matching_files]: list [working_directory.join(self.directory)]. *)
Definition matching_files (fs : FileSystem) (p : SourcePathPattern)
    (working_directory : str) : result io_error (list (str * list str)) :=
  let directory_path := path_join working_directory (directory p) in
  match read_dir fs directory_path with
  | None => Err (ReadDirFailed directory_path)
  | Some entries => matching_entries p directory_path entries []
  end.

(** ** Specification *)

(** The entry a successful listing keeps, if any. *)
Definition select_entry (p : SourcePathPattern) (e : DirEntry) : option (str * list str) :=
  match metadata e with
  | Some m =>
      if is_file m && file_name_utf8 e then
        (fun match_info => (path_join (directory p) (file_name e), match_info))
          <$> wm_match (filename_pattern p) (file_name e)
      else None
  | None => None
  end.

(** Every entry and its metadata can be read. *)
Definition entries_readable (entries : list (option DirEntry)) : Prop :=
  Forall (fun oe => exists e m, oe = Some e /\ metadata e = Some m) entries.

Lemma matching_entries_ok p dp entries acc :
  entries_readable entries ->
  matching_entries p dp entries acc
    = Ok (acc ++ omap (fun oe => oe ≫= select_entry p) entries).
Proof.
  revert acc. induction entries as [|oe entries IH]; intros acc Hr; simpl.
  - by rewrite app_nil_r.
  - apply Forall_cons in Hr as [(e & m & -> & Hm) Hr]. simpl.
    unfold select_entry. rewrite Hm.
    destruct (is_file m && file_name_utf8 e); [|by apply IH].
    destruct (wm_match _ _); simpl; rewrite IH by done; [|done].
    by rewrite <-app_assoc.
Qed.

Lemma matching_entries_err p dp entries acc :
  ~ entries_readable entries -> exists e, matching_entries p dp entries acc = Err e.
Proof.
  revert acc. induction entries as [|[e|] entries IH]; intros acc Hr; simpl.
  - destruct Hr. constructor.
  - destruct (metadata e) as [m|] eqn:Hm; [|by eexists].
    assert (Hr' : ~ entries_readable entries) by (intros H; apply Hr; constructor; eauto).
    destruct (is_file m && file_name_utf8 e); [destruct (wm_match _ _)|]; by apply IH.
  - by eexists.
Qed.

(** Every match comes from an entry of the listing. *)
Lemma matching_entries_elem p dp entries acc l x :
  matching_entries p dp entries acc = Ok l -> x ∈ l ->
  x ∈ acc \/ exists e, Some e ∈ entries /\ select_entry p e = Some x.
Proof.
  revert acc. induction entries as [|[e|] entries IH]; intros acc H Hx; simpl in H;
    [injection H as <-; by left| |done].
  destruct (metadata e) as [m|] eqn:Hm; [|done].
  assert (Hsel : forall acc', matching_entries p dp entries acc' = Ok l ->
            (forall y, y ∈ acc' -> y ∈ acc \/ select_entry p e = Some y) ->
            x ∈ acc \/ exists e', Some e' ∈ Some e :: entries /\ select_entry p e' = Some x).
  { intros acc' H' Hacc. destruct (IH _ H' Hx) as [Hin|(e' & He' & Hs)].
    - destruct (Hacc _ Hin) as [|Hs]; [by left|right; exists e; split; [set_solver|done]].
    - right. exists e'. split; [set_solver|done]. }
  unfold select_entry in Hsel. rewrite Hm in Hsel.
  destruct (is_file m && file_name_utf8 e); [destruct (wm_match _ _) as [mi|]|];
    apply (Hsel _ H); [|naive_solver..].
  intros y Hy. apply elem_of_app in Hy as [Hy|Hy]; [by left|right].
  apply list_elem_of_singleton in Hy as ->. done.
Qed.

Lemma matching_files_elem fs p wd l x :
  matching_files fs p wd = Ok l -> x ∈ l ->
  exists entries e, read_dir fs (path_join wd (directory p)) = Some entries /\
    Some e ∈ entries /\ select_entry p e = Some x.
Proof.
  unfold matching_files. destruct (read_dir _ _) as [es|] eqn:Hd; [|done]. intros H Hx.
  destruct (matching_entries_elem _ _ _ _ _ _ H Hx) as [Hin|(e & He & Hs)]; [set_solver|eauto].
Qed.

Context {HL : WildcardMatcherLaws P}.

Lemma matching_entries_fragments p dp entries acc l :
  Forall (fun '(_, frs) => length frs = wildcards_number p) acc ->
  matching_entries p dp entries acc = Ok l ->
  Forall (fun '(_, frs) => length frs = wildcards_number p) l.
Proof using HL.
  revert acc. induction entries as [|[e|] entries IH]; intros acc Hacc H; simpl in H.
  - by injection H as <-.
  - destruct (metadata e) as [m|]; [|done].
    destruct (is_file m && file_name_utf8 e); [|by eapply IH].
    destruct (wm_match _ _) as [mi|] eqn:Hmi; [|by eapply IH].
    eapply IH; [|done]. apply Forall_app. split; [done|].
    constructor; [|done]. by apply wm_match_length in Hmi.
  - done.
Qed.

(** ** Theorems *)

(** The two parts [from_str] splits a pattern into. *)
Definition dir_part (string : str) : str := take (last_sep_split slash_char string) string.
Definition file_part (string : str) : str := drop (last_sep_split slash_char string) string.

Lemma from_str_eq string :
  from_str string = if contains star_char (dir_part string) then Err wildcard_in_directory_error
                    else Ok (mk_source (dir_part string) (wm_from (file_part string))).
Proof. done. Qed.

(** C24. [from_str] fails exactly when the directory part contains
    ['*'], and then with the fixed message. *)
Theorem from_str_Err (string : str) (e : str) :
  from_str string = Err e <-> star_char ∈ dir_part string /\ e = wildcard_in_directory_error.
Proof using Type.
  rewrite from_str_eq. unfold contains. case_bool_decide; split; naive_solver.
Qed.

(** C25. An accepted pattern keeps ['*'] out of its directory, its
    directory is the text up to the last ['/'], the rest has no ['/'],
    and it has as many wildcards as the text has ['*']. *)
Theorem from_str_Ok (string : str) (p : SourcePathPattern) :
  from_str string = Ok p ->
  (star_char ∉ directory p) /\ directory p = dir_part string /\
  (slash_char ∉ file_part string) /\
  wildcards_number p = length (filter (.= star_char) string).
Proof using HL.
  rewrite from_str_eq. unfold contains. case_bool_decide as Hd; [done|].
  intros [= <-]. simpl. split; [done|]. split; [done|]. split; [apply last_sep_split_file|].
  unfold wildcards_number. simpl. rewrite wm_wildcards_from.
  assert (Hs : string = dir_part string ++ file_part string) by (symmetry; apply take_drop).
  rewrite Hs at 2. rewrite filter_app, length_app.
  rewrite (count_not_elem_of _ (dir_part string)); [lia|].
  intros Hin. apply Hd. done.
Qed.

(** C26. Round trip: printing an accepted pattern gives back its text. *)
Theorem to_string_from_str (string : str) (p : SourcePathPattern) :
  from_str string = Ok p -> to_string p = string.
Proof using HL.
  rewrite from_str_eq. destruct (contains _ _); [done|]. intros [= <-].
  unfold to_string. simpl. rewrite wm_render_from. apply take_drop.
Qed.

(** C17. Every file [matching_files] returns comes with one fragment per
    wildcard, so it can be substituted into a template compiled with
    [max_marker_index = wildcards_number]. *)
Theorem matching_files_fragments (fs : FileSystem) (p : SourcePathPattern)
    (wd : str) (l : list (str * list str)) :
  matching_files fs p wd = Ok l ->
  Forall (fun '(_, frs) => length frs = wildcards_number p) l.
Proof using HL.
  unfold matching_files. destruct (read_dir fs _); [|done].
  apply matching_entries_fragments. constructor.
Qed.

(** C18. On a readable directory, [matching_files] returns, in listing
    order, exactly the regular files with a UTF-8 name the pattern
    matches, each with its path under the pattern's directory and its
    fragments. *)
Theorem matching_files_spec (fs : FileSystem) (p : SourcePathPattern) (wd : str)
    (entries : list (option DirEntry)) :
  read_dir fs (path_join wd (directory p)) = Some entries ->
  entries_readable entries ->
  matching_files fs p wd = Ok (omap (fun oe => oe ≫= select_entry p) entries).
Proof using Type.
  intros Hd Hr. unfold matching_files. rewrite Hd. by rewrite matching_entries_ok.
Qed.

(** C27. An unreadable directory, entry or metadata makes the whole call
    fail: there are no partial results. *)
Theorem matching_files_Err (fs : FileSystem) (p : SourcePathPattern) (wd : str) :
  (read_dir fs (path_join wd (directory p)) = None \/
   exists entries, read_dir fs (path_join wd (directory p)) = Some entries /\
                   ~ entries_readable entries) ->
  exists e, matching_files fs p wd = Err e.
Proof using Type.
  unfold matching_files. intros [Hd|(entries & Hd & Hr)]; rewrite Hd; [by eexists|].
  by apply matching_entries_err.
Qed.

End WithMatcher.

(** ** Instantiation with [GlobStarPattern], witnesses and unit tests *)

Abbreviation GlobSource := (SourcePathPattern (P := GlobStarPattern.GlobStarPattern)).

Module Tests.

(** The temporary directory of [fn it_works]: [gallifrey/timelords/] holds
    [1.doc] .. [13.doc], a directory [0.doc], and [1.master] .. [9.master]. *)
Definition timelords_entries : list (option DirEntry) :=
  map (fun i => Some (mk_entry (u8_to_string i ++ ".doc") true (Some (mk_metadata true))))
      (seq 1 13)
  ++ [Some (mk_entry "0.doc" true (Some (mk_metadata false)))]
  ++ map (fun i => Some (mk_entry (u8_to_string i ++ ".master") true (Some (mk_metadata true))))
      (seq 1 9).

Definition gallifrey : FileSystem :=
  mk_fs (fun path => if bool_decide (path = "gallifrey/timelords/") then Some timelords_entries
                     else None).

Definition any_doctor_pattern : result str GlobSource := from_str "timelords/*.doc".

Definition expected_files : list (str * list str) :=
  map (fun i => ("timelords/" ++ u8_to_string i ++ ".doc", [u8_to_string i])) (seq 1 13).

(** [fn it_works]: from the wrong directory the listing fails; from the
    working directory the matches are the thirteen doctors (compared after
    sorting, i.e. up to permutation). *)
Definition it_works : bool :=
  match any_doctor_pattern with
  | Ok p =>
      match matching_files gallifrey p "gallifrey/timelords" with Err _ => true | Ok _ => false end &&
      match matching_files gallifrey p "gallifrey" with
      | Ok matched_files => bool_decide (matched_files ≡ₚ expected_files)
      | Err _ => false
      end
  | Err _ => false
  end.

(** [fn test_source_path_pattern_from_str] *)
Definition test_source_path_pattern_from_str : bool :=
  bool_decide (from_str "doctor/in/blue/box/*.tardis"
               = Ok (mk_source "doctor/in/blue/box/" (GlobStarPattern.from "*.tardis"))) &&
  bool_decide (from_str "master*dalek" = Ok (mk_source "" (GlobStarPattern.from "master*dalek"))) &&
  bool_decide (from_str "/from_root.*" = Ok (mk_source "/" (GlobStarPattern.from "from_root.*"))) &&
  match from_str (P := GlobStarPattern.GlobStarPattern) "b*d/pattern" with
  | Err _ => true | Ok _ => false end.

(** [fn test_display] *)
Definition test_display : bool :=
  forallb (fun pattern =>
    match from_str (P := GlobStarPattern.GlobStarPattern) pattern with
    | Ok p => bool_decide (to_string p = pattern)
    | Err _ => false
    end) [""; "/"; "/path/to/file#1"; "/hello/world"; "empty/filename/"; "path/*.png"].

(** The model passes the unit tests of [source_path_pattern.rs]:
    [it_works] on a model of its temporary directory, [from_str] (with the
    rejection of ["b*d/pattern"]) and [test_display]. *)
Example source_unit_tests_pass :
  it_works && test_source_path_pattern_from_str && test_display = true.
Proof. vm_compute. reflexivity. Qed.

End Tests.

Lemma from_str_Ok_witness :
  from_str "doctor/in/blue/box/*.tardis"
    = Ok (mk_source "doctor/in/blue/box/" (GlobStarPattern.from "*.tardis")) /\
  wildcards_number (mk_source "doctor/in/blue/box/" (GlobStarPattern.from "*.tardis")) = 1.
Proof.
  assert (H : from_str "doctor/in/blue/box/*.tardis"
                = Ok (mk_source "doctor/in/blue/box/" (GlobStarPattern.from "*.tardis")))
    by (vm_compute; reflexivity).
  split; [exact H|]. destruct (from_str_Ok _ _ H) as (_ & _ & _ & ->). vm_compute. reflexivity.
Defined.

Lemma to_string_from_str_witness :
  from_str "path/*.png" = Ok (mk_source "path/" (GlobStarPattern.from "*.png")) /\
  to_string (mk_source "path/" (GlobStarPattern.from "*.png")) = "path/*.png".
Proof.
  assert (H : from_str "path/*.png" = Ok (mk_source "path/" (GlobStarPattern.from "*.png")))
    by (vm_compute; reflexivity).
  split; [exact H|]. exact (to_string_from_str _ _ H).
Defined.

Lemma matching_files_fragments_witness :
  matching_files Tests.gallifrey (mk_source "timelords/" (GlobStarPattern.from "*.doc"))
    "gallifrey" = Ok Tests.expected_files /\
  Forall (fun '(_, frs) => length frs = 1) Tests.expected_files.
Proof.
  assert (H : matching_files Tests.gallifrey (mk_source "timelords/" (GlobStarPattern.from "*.doc"))
                "gallifrey" = Ok Tests.expected_files) by (vm_compute; reflexivity).
  split; [exact H|]. exact (matching_files_fragments _ _ _ _ H).
Defined.

Lemma matching_files_spec_witness :
  read_dir Tests.gallifrey (path_join "gallifrey" "timelords/") = Some Tests.timelords_entries /\
  entries_readable Tests.timelords_entries /\
  matching_files Tests.gallifrey (mk_source "timelords/" (GlobStarPattern.from "*.master"))
    "gallifrey"
  = Ok (omap (fun oe => oe ≫= select_entry (mk_source "timelords/" (GlobStarPattern.from "*.master")))
             Tests.timelords_entries).
Proof.
  assert (Hd : read_dir Tests.gallifrey (path_join "gallifrey" "timelords/")
               = Some Tests.timelords_entries) by (vm_compute; reflexivity).
  assert (Hr : entries_readable Tests.timelords_entries)
    by (repeat constructor; eexists _, _; split; reflexivity).
  split; [exact Hd|]. split; [exact Hr|].
  exact (matching_files_spec _ (mk_source "timelords/" (GlobStarPattern.from "*.master")) _ _ Hd Hr).
Defined.

Lemma matching_files_Err_witness :
  read_dir Tests.gallifrey (path_join "gallifrey/timelords" "timelords/") = None /\
  exists e, matching_files Tests.gallifrey (mk_source "timelords/" (GlobStarPattern.from "*.doc"))
              "gallifrey/timelords" = Err e.
Proof.
  assert (Hd : read_dir Tests.gallifrey (path_join "gallifrey/timelords" "timelords/") = None)
    by (vm_compute; reflexivity).
  split; [exact Hd|].
  exact (matching_files_Err _ (mk_source "timelords/" (GlobStarPattern.from "*.doc")) _ (or_introl Hd)).
Defined.

End SourcePathPattern.
