(* ===== verification/Mmv.v ===== *)
(** * The [mmv] command (src/src/main.rs)

    [main] parses the two patterns, compiles the destination template with
    [max_marker_index = wildcards_number] (after the [u8] conversion),
    lists the matching files, substitutes every fragment list, refuses an
    empty match set and a missing target directory, then renames each file
    in turn, skipping existing destinations unless [--force] is given.

    The file system is the [FileSystemOps] interface (current directory,
    [read_dir], [Path::exists], [std::fs::rename]); its laws
    ([FileSystemLaws]) say what a rename does to the set of files.  The
    theorems: [main] never reaches the panic of [substitute] (the three
    components fit together), without [--force] no file is lost, the exit
    code reports exactly the failed renames, the error exits, and the
    exact condition under which [main] hangs or panics (in [compile]). *)

From S2P Require Import Prelude RustStr GlobStarPattern DestinationPathTemplate CompileTermination SourcePathPattern.

Module Mmv.

(** ** The file system as [main] uses it *)

Class FileSystemOps (Fs : Type) := {
  fs_current_dir : Fs -> option str;                  (** [std::env::current_dir()] *)
  fs_listing : Fs -> SourcePathPattern.FileSystem;    (** [std::fs::read_dir] *)
  fs_exists : Fs -> str -> bool;                      (** [Path::exists] *)
  fs_rename : Fs -> str -> str -> option Fs           (** [std::fs::rename]; [None]: [Err] *)
}.

(** [fs_files] is the set of regular files, by canonical path; [fs_resolve]
    gives the canonical path of a path as [main] passes it. *)
Class FileSystemLaws (Fs : Type) `{!FileSystemOps Fs} := {
  fs_files : Fs -> gset str;
  fs_resolve : Fs -> str -> str;
  fs_exists_files s p : fs_resolve s p ∈ fs_files s -> fs_exists s p = true;
  fs_rename_files s a b s' :
    fs_rename s a b = Some s' ->
    fs_resolve s a ∈ fs_files s /\
    fs_files s' = {[fs_resolve s b]} ∪ (fs_files s ∖ {[fs_resolve s a]}) /\
    fs_resolve s' = fs_resolve s
}.

(** ** [CLIArgs] and the errors of [main] *)

Abbreviation Source := (SourcePathPattern.SourcePathPattern
                          (P := GlobStarPattern.GlobStarPattern)).

(** [pub struct CLIArgs]; clap builds [source_pattern] with [FromStr]. *)
Record CLIArgs := mk_args {
  source_pattern : Source;
  destination_template : str;
  force : bool
}.

Inductive main_error :=
  | InvalidSourcePattern (msg : str)   (** clap rejects the [FromStr] error *)
  | TooManyWildcards                   (** "Too many wildcards: ..." *)
  | CurrentDirFailed                   (** [std::env::current_dir()?] *)
  | MatchingFailed (e : SourcePathPattern.io_error)
  | CompilePanic (p : DestinationPathTemplate.panic)    (** a panic in [compile] *)
  | SubstitutePanic (p : DestinationPathTemplate.panic) (** a panic in [substitute] *)
  | NoFilesMatching (pattern : str)    (** "No files matching pattern {}" *)
  | TargetDirectoryMissing (dir : str). (** "Target directory {:#?} doesn't exist" *)

#[global] Instance main_error_eq_dec : EqDecision main_error.
Proof. solve_decision. Defined.

(** What each iteration of the rename loop prints after "Moving ...". *)
Inductive move_outcome := Skip | Failed | Done.

#[global] Instance move_outcome_eq_dec : EqDecision move_outcome.
Proof. solve_decision. Defined.

(** [CLIArgs::parse], for the two positional arguments and [--force]. *)
Definition parse_args (source_pattern destination_template : str) (force : bool)
    : result main_error CLIArgs :=
  match SourcePathPattern.from_str source_pattern with
  | Ok p => Ok (mk_args p destination_template force)
  | Err msg => Err (InvalidSourcePattern msg)
  end.

(** [.try_into()] from [usize] to [u8]. *)
Definition u8_try_from (n : nat) : option nat := if decide (n <= 255) then Some n else None.

Definition map_err {E F A} (f : E -> F) (r : result E A) : result F A :=
  match r with Ok a => Ok a | Err e => Err (f e) end.

(** The [.map(|(source_path, fragments)| ...)] of [main]: substitute every
    fragment list (a panic aborts the whole computation). *)
Fixpoint substitute_all (t : DestinationPathTemplate.DestinationPathTemplate)
    (matches : list (str * list str)) : result DestinationPathTemplate.panic (list (str * str)) :=
  match matches with
  | [] => Ok []
  | (source_path, fragments) :: rest =>
      destination ← DestinationPathTemplate.substitute t fragments;
      rest' ← substitute_all t rest;
      Ok ((source_path, destination) :: rest')
  end.

Section WithFs.
Context {Fs : Type} `{!FileSystemOps Fs}.

(** The [for (source, destination) in calculated_source_destination] loop:
    the state of the file system, [failed_at_least_once] and the printed
    outcomes are threaded through. *)
Fixpoint rename_loop (force : bool) (s : Fs) (pairs : list (str * str))
    (failed_at_least_once : bool) (log : list (str * str * move_outcome))
    : Fs * bool * list (str * str * move_outcome) :=
  match pairs with
  | [] => (s, failed_at_least_once, log)
  | (source, destination) :: rest =>
      if negb force && fs_exists s destination then
        rename_loop force s rest failed_at_least_once (log ++ [(source, destination, Skip)])
      else match fs_rename s source destination with
           | None => rename_loop force s rest true (log ++ [(source, destination, Failed)])
           | Some s' => rename_loop force s' rest failed_at_least_once
                          (log ++ [(source, destination, Done)])
           end
  end.

(** [main] after argument parsing.  [None]: the template compile does not
    terminate within its fuel (see [DestinationPathTemplate.compile]);
    [CompilePanic]: it panics.  On success: the final file system, the
    exit code and the printed log. *)
Definition run (s : Fs) (cli_args : CLIArgs)
    : option (result main_error (Fs * nat * list (str * str * move_outcome))) :=
  match u8_try_from (SourcePathPattern.wildcards_number (source_pattern cli_args)) with
  | None => Some (Err TooManyWildcards)
  | Some max_marker_index =>
      match DestinationPathTemplate.compile (destination_template cli_args) max_marker_index with
      | None => None
      | Some (Err p) => Some (Err (CompilePanic p))
      | Some (Ok compiled_destination_pattern) =>
          Some (
            working_directory ← ok_or (fs_current_dir s) CurrentDirFailed;
            matches ← map_err MatchingFailed
                        (SourcePathPattern.matching_files (fs_listing s)
                           (source_pattern cli_args) working_directory);
            calculated_source_destination ←
              map_err SubstitutePanic (substitute_all compiled_destination_pattern matches);
            if decide (calculated_source_destination = []) then
              Err (NoFilesMatching (SourcePathPattern.to_string (source_pattern cli_args)))
            else if negb (bool_decide (DestinationPathTemplate.directory
                                         compiled_destination_pattern = []))
                    && negb (fs_exists s (DestinationPathTemplate.directory
                                            compiled_destination_pattern)) then
              Err (TargetDirectoryMissing
                     (DestinationPathTemplate.directory compiled_destination_pattern))
            else
              let '(s', failed_at_least_once, log) :=
                rename_loop (force cli_args) s calculated_source_destination false [] in
              Ok (s', if failed_at_least_once then 1 else 0, log))
      end
  end.

(** [main]: parse, then run. *)
Definition main (s : Fs) (source_pattern destination_template : str) (force : bool)
    : option (result main_error (Fs * nat * list (str * str * move_outcome))) :=
  match parse_args source_pattern destination_template force with
  | Err e => Some (Err e)
  | Ok cli_args => run s cli_args
  end.

(** ** Lemmas *)

Lemma u8_try_from_Some n m : u8_try_from n = Some m -> m = n /\ n <= 255.
Proof. unfold u8_try_from. case_decide; intros ?; simplify_eq; split; [done|lia]. Qed.

Lemma substitute_all_ok t matches :
  Forall (fun '(_, frs) => exists r, DestinationPathTemplate.substitute t frs = Ok r) matches ->
  exists l, substitute_all t matches = Ok l /\ map fst l = map fst matches.
Proof.
  induction matches as [|[sp frs] matches IH]; intros Hall; simpl; [by exists []|].
  apply Forall_cons in Hall as [[r Hr] Hall]. rewrite Hr. simpl.
  destruct (IH Hall) as (l & -> & Hl). simpl. exists ((sp, r) :: l). simpl. by rewrite Hl.
Qed.

Lemma substitute_all_elem t matches calc a b :
  substitute_all t matches = Ok calc -> (a, b) ∈ calc ->
  exists frs, (a, frs) ∈ matches /\ DestinationPathTemplate.substitute t frs = Ok b.
Proof.
  revert calc. induction matches as [|[a' frs] matches IH]; intros calc H Hin; simpl in H.
  - injection H as <-. set_solver.
  - destruct (DestinationPathTemplate.substitute t frs) as [r|] eqn:Hs; simpl in H; [|done].
    destruct (substitute_all t matches) as [rest|] eqn:Hr; simpl in H; [|done].
    injection H as <-. apply elem_of_cons in Hin as [[= -> ->]|Hin].
    + exists frs. split; [set_solver|done].
    + destruct (IH _ eq_refl Hin) as (frs' & ? & ?). exists frs'. split; [set_solver|done].
Qed.

(** On a template with one block more than markers, [substitute_all]
    pairs each match with its rendered destination. *)
Lemma substitute_all_eq t matches calc :
  length (DestinationPathTemplate.literal_blocks t)
    = S (length (DestinationPathTemplate.markers t)) ->
  substitute_all t matches = Ok calc ->
  calc = map (fun '(a, frs) =>
                (a, path_join (DestinationPathTemplate.directory t)
                      (fill (DestinationPathTemplate.literal_blocks t)
                         (map (DestinationPathTemplate.fragment_for frs)
                            (DestinationPathTemplate.markers t))))) matches.
Proof.
  intros Hlen. revert calc. induction matches as [|[a frs] matches IH]; intros calc H; simpl in H.
  - by injection H as <-.
  - destruct (DestinationPathTemplate.substitute t frs) as [r|] eqn:Hs; simpl in H; [|done].
    destruct (substitute_all t matches) as [rest|] eqn:Hr; simpl in H; [|done].
    injection H as <-. destruct (DestinationPathTemplate.substitute_Ok_eq _ _ _ Hlen Hs) as [-> _].
    by rewrite (IH _ eq_refl).
Qed.

(** The rename loop appends one line per pair, in order, and the failure
    flag records whether one of them failed. *)
Lemma rename_loop_log force s pairs failed log s' failed' log' :
  rename_loop force s pairs failed log = (s', failed', log') ->
  exists new, log' = log ++ new /\
    map (fun '(a, b, _) => (a, b)) new = pairs /\
    (failed' = true <-> failed = true \/ exists a b, (a, b, Failed) ∈ new).
Proof.
  revert s failed log. induction pairs as [|[a b] pairs IH]; intros s failed log H; simpl in H.
  - injection H as <- <- <-. exists []. rewrite app_nil_r. split; [done|]. split; [done|].
    set_solver.
  - destruct (negb force && fs_exists s b); [|destruct (fs_rename s a b)];
      destruct (IH _ _ _ H) as (new & -> & Hmap & Hf);
      eexists; (split; [by rewrite <-app_assoc|]); (split; [simpl; by rewrite Hmap|]);
      rewrite Hf; set_solver.
Qed.

Context {HL : FileSystemLaws Fs}.

(** One rename to a destination that does not exist keeps the number of
    files. *)
Lemma rename_fresh_size s a b s' :
  fs_rename s a b = Some s' -> fs_exists s b = false ->
  size (fs_files s') = size (fs_files s).
Proof using HL.
  intros Hr Hb. destruct (fs_rename_files _ _ _ _ Hr) as (Ha & -> & _).
  assert (Hnb : fs_resolve s b ∉ fs_files s).
  { intros Hin. apply fs_exists_files in Hin. congruence. }
  rewrite size_union by set_solver. rewrite size_singleton.
  rewrite size_difference by set_solver. rewrite size_singleton.
  pose proof (subseteq_size {[fs_resolve s a]} (fs_files s) ltac:(set_solver)) as Hle.
  rewrite size_singleton in Hle. lia.
Qed.

Lemma rename_loop_no_loss s pairs failed log s' failed' log' :
  rename_loop false s pairs failed log = (s', failed', log') ->
  size (fs_files s') = size (fs_files s).
Proof using HL.
  revert s failed log. induction pairs as [|[a b] pairs IH]; intros s failed log H; simpl in H.
  - by injection H as <- _ _.
  - destruct (fs_exists s b) eqn:Hb; [by eapply IH|].
    destruct (fs_rename s a b) as [s1|] eqn:Hr; [|by eapply IH].
    rewrite (IH _ _ _ H). by apply (rename_fresh_size _ a b).
Qed.

Lemma run_Ok_inv s args s' code log :
  run s args = Some (Ok (s', code, log)) ->
  exists calc failed,
    calc <> [] /\
    rename_loop (force args) s calc false [] = (s', failed, log) /\
    code = (if failed then 1 else 0).
Proof using Type.
  unfold run. destruct (u8_try_from _) as [m|]; [|done].
  destruct (DestinationPathTemplate.compile _ _) as [[tpl|p]|]; [|done..].
  intros [= H].
  destruct (fs_current_dir s); simpl in H; [|done].
  destruct (SourcePathPattern.matching_files _ _ _); simpl in H; [|done].
  destruct (substitute_all tpl _) as [calc|]; simpl in H; [|done].
  destruct (decide (calc = [])); [done|].
  destruct (_ && _); [done|].
  destruct (rename_loop _ _ _ _ _) as [[s1 f] lg] eqn:Hlg. injection H as -> <- ->.
  eauto 10.
Qed.

Lemma main_Ok_inv s src dst force s' code log :
  main s src dst force = Some (Ok (s', code, log)) ->
  exists calc failed,
    calc <> [] /\
    rename_loop force s calc false [] = (s', failed, log) /\
    code = (if failed then 1 else 0).
Proof using Type.
  unfold main, parse_args. destruct (SourcePathPattern.from_str src); [|done].
  apply run_Ok_inv.
Qed.

(** Every intermediate result of a successful run of [main]. *)
Lemma main_Ok_steps s src dst frc s' code log :
  main s src dst frc = Some (Ok (s', code, log)) ->
  exists sp tpl wd ms calc failed,
    SourcePathPattern.from_str src = Ok sp /\
    DestinationPathTemplate.compile dst (SourcePathPattern.wildcards_number sp) = Some (Ok tpl) /\
    fs_current_dir s = Some wd /\
    SourcePathPattern.matching_files (fs_listing s) sp wd = Ok ms /\
    substitute_all tpl ms = Ok calc /\
    rename_loop frc s calc false [] = (s', failed, log).
Proof using Type.
  unfold main, parse_args. destruct (SourcePathPattern.from_str src) as [sp|]; [|done].
  unfold run. cbn [source_pattern destination_template force].
  destruct (u8_try_from _) as [m|] eqn:Hm; [|done]. apply u8_try_from_Some in Hm as [-> _].
  destruct (DestinationPathTemplate.compile _ _) as [[tpl|p]|] eqn:Hc; [|done..]. intros [= H].
  destruct (fs_current_dir s) as [wd|]; simpl in H; [|done].
  destruct (SourcePathPattern.matching_files _ _ _) as [ms|] eqn:Hmf; simpl in H; [|done].
  destruct (substitute_all tpl ms) as [calc|] eqn:Hsa; simpl in H; [|done].
  destruct (decide (calc = [])); [done|]. destruct (_ && _); [done|].
  destruct (rename_loop _ _ _ _ _) as [[s1 f] lg] eqn:Hlg. injection H as -> <- ->.
  exists sp, tpl, wd, ms, calc, f. eauto 10.
Qed.

(** A run that does not return a template from [compile] stops there. *)
Lemma main_stuck_inv s src dst frc :
  (main s src dst frc = None \/ exists p, main s src dst frc = Some (Err (CompilePanic p))) ->
  exists sp, SourcePathPattern.from_str src = Ok sp /\
    SourcePathPattern.wildcards_number sp <= 255 /\
    (main s src dst frc = None /\
       DestinationPathTemplate.compile dst (SourcePathPattern.wildcards_number sp) = None \/
     exists p, main s src dst frc = Some (Err (CompilePanic p)) /\
       DestinationPathTemplate.compile dst (SourcePathPattern.wildcards_number sp) = Some (Err p)).
Proof using Type.
  unfold main, parse_args. intros Hst.
  destruct (SourcePathPattern.from_str src) as [sp|e]; [|by destruct Hst as [|[p ?]]].
  unfold run in *. cbn [source_pattern destination_template] in *. unfold u8_try_from in *.
  case_decide; [|by destruct Hst as [|[p ?]]]. exists sp. split; [done|]. split; [lia|].
  destruct (DestinationPathTemplate.compile _ _) as [[tpl|p]|]; [|by eauto|by eauto].
  destruct Hst as [Hm|[p Hm]]; [done|]. injection Hm as Hr.
  destruct (fs_current_dir s); simpl in Hr; [|done].
  destruct (SourcePathPattern.matching_files _ _ _); simpl in Hr; [|done].
  destruct (substitute_all tpl _) as [calc|]; simpl in Hr; [|done].
  destruct (decide (calc = [])); [done|]. destruct (_ && _); [done|].
  by destruct (rename_loop _ _ _ _ _) as [[s1 f] lg].
Qed.

(** ** Theorems *)

(** C9. [main] never reaches the panic of [substitute]: the template is
    compiled with [max_marker_index = wildcards_number], every marker is
    at most that, and every match has exactly that many fragments. *)
Theorem main_never_panics (s : Fs) (src dst : str) (force : bool)
    (p : DestinationPathTemplate.panic) :
  main s src dst force <> Some (Err (SubstitutePanic p)).
Proof using Type.
  unfold main, parse_args. destruct (SourcePathPattern.from_str src) as [sp|msg]; [|done].
  unfold run. cbn [source_pattern destination_template].
  destruct (u8_try_from _) as [m|] eqn:Hm; [|done]. apply u8_try_from_Some in Hm as [-> _].
  destruct (DestinationPathTemplate.compile _ _) as [[tpl|p']|] eqn:Hc; [|done..].
  destruct (DestinationPathTemplate.compile_wf _ _ _ Hc) as (Hlen & Hrange).
  intros [= H].
  destruct (fs_current_dir s) as [wd|]; simpl in H; [|done].
  destruct (SourcePathPattern.matching_files _ _ _) as [ms|] eqn:Hmf; simpl in H; [|done].
  assert (Hfr : Forall (fun '(_, frs) => length frs = SourcePathPattern.wildcards_number sp) ms).
  { unfold SourcePathPattern.matching_files in Hmf. destruct (SourcePathPattern.read_dir _ _); [|done].
    by eapply SourcePathPattern.matching_entries_fragments; [constructor|]. }
  destruct (substitute_all_ok tpl ms) as (l & Hl & _).
  { eapply Forall_impl; [exact Hfr|]. intros [sp' frs] Hfrs.
    apply DestinationPathTemplate.substitute_Ok; [done|].
    eapply Forall_impl; [exact Hrange|].
    unfold DestinationPathTemplate.marker_in_range. intros k Hk. lia. }
  rewrite Hl in H. simpl in H.
  destruct (decide (l = [])); [done|]. destruct (_ && _); [done|].
  by destruct (rename_loop _ _ _ _ _) as [[? ?] ?].
Qed.

(** C10. Without [--force] no file is lost: a rename only ever goes to a
    destination that does not exist, so the number of files is kept. *)
Theorem main_no_loss_without_force (s : Fs) (src dst : str) (s' : Fs) (code : nat)
    (log : list (str * str * move_outcome)) :
  main s src dst false = Some (Ok (s', code, log)) ->
  size (fs_files s') = size (fs_files s).
Proof using HL.
  intros H. destruct (main_Ok_inv _ _ _ _ _ _ _ H) as (calc & failed & _ & Hl & _).
  by apply rename_loop_no_loss in Hl.
Qed.

(** C19. The exit code is 0 or 1, and it is 1 exactly when one of the
    renames failed, and something was reported. *)
Theorem main_exit_code (s : Fs) (src dst : str) (force : bool) (s' : Fs) (code : nat)
    (log : list (str * str * move_outcome)) :
  main s src dst force = Some (Ok (s', code, log)) ->
  (code = 0 \/ code = 1) /\ (code = 1 <-> exists a b, (a, b, Failed) ∈ log) /\ log <> [].
Proof using Type.
  intros H. destruct (main_Ok_inv _ _ _ _ _ _ _ H) as (calc & failed & Hne & Hl & ->).
  destruct (rename_loop_log _ _ _ _ _ _ _ _ Hl) as (new & -> & Hmap & Hf). simpl.
  assert (Hf' : failed = true <-> exists a b, (a, b, Failed) ∈ new) by (rewrite Hf; naive_solver).
  split; [destruct failed; auto|]. split.
  - rewrite <-Hf'. destruct failed; naive_solver.
  - intros ->. simpl in Hmap. by subst calc.
Qed.

(** C28. A source pattern with more than 255 wildcards is refused before
    anything is read: [max_marker_index] is a [u8]. *)
Theorem main_too_many_wildcards (s : Fs) (src dst : str) (force : bool) (sp : Source) :
  SourcePathPattern.from_str src = Ok sp ->
  255 < SourcePathPattern.wildcards_number sp ->
  main s src dst force = Some (Err TooManyWildcards).
Proof using Type.
  intros Hsp Hn. unfold main, parse_args. rewrite Hsp. unfold run.
  cbn [source_pattern]. unfold u8_try_from. case_decide; [lia|reflexivity].
Qed.

(** C29. When no file matches, [main] fails with "No files matching
    pattern" and the pattern printed by [Display], and renames nothing. *)
Theorem main_no_files_matching (s : Fs) (src dst : str) (force : bool) (sp : Source)
    (tpl : DestinationPathTemplate.DestinationPathTemplate) (wd : str) :
  SourcePathPattern.from_str src = Ok sp ->
  SourcePathPattern.wildcards_number sp <= 255 ->
  DestinationPathTemplate.compile dst (SourcePathPattern.wildcards_number sp) = Some (Ok tpl) ->
  fs_current_dir s = Some wd ->
  SourcePathPattern.matching_files (fs_listing s) sp wd = Ok [] ->
  main s src dst force = Some (Err (NoFilesMatching (SourcePathPattern.to_string sp))).
Proof using Type.
  intros Hsp Hn Hc Hwd Hmf. unfold main, parse_args. rewrite Hsp. unfold run.
  cbn [source_pattern destination_template]. unfold u8_try_from.
  rewrite decide_True by lia. rewrite Hc, Hwd. simpl. by rewrite Hmf.
Qed.

(** C5. [mmv] hangs or panics in [compile] (a slice at a byte that is not
    a character boundary) exactly when the source pattern is accepted with
    at most 255 wildcards and the file-name part of the destination
    template has two consecutive ['#'] that are both literal for
    [max_marker_index = wildcards_number]; it does so before reading the
    file system.  Every other run of [main] terminates without a panic in
    [compile].  The template is a [String] argument, so valid UTF-8. *)
Theorem main_hangs_iff (s : Fs) (src dst : str) (force : bool) :
  utf8 dst = true ->
  (main s src dst force = None \/
   exists i, main s src dst force =
     Some (Err (CompilePanic (DestinationPathTemplate.NotCharBoundary i)))) <->
  exists sp, SourcePathPattern.from_str src = Ok sp /\
    SourcePathPattern.wildcards_number sp <= 255 /\
    CompileTermination.consecutive_literal_hashes (SourcePathPattern.wildcards_number sp)
      (drop (last_sep_split slash_char dst) dst).
Proof using Type.
  intros Hu. split.
  - intros Hst. destruct (main_stuck_inv s src dst force ltac:(destruct Hst as [|[i ?]]; eauto)) as (sp & Hsp & Hn & Hc).
    exists sp. do 2 (split; [done|]). apply (CompileTermination.compile_stuck_iff _ _ Hu).
    destruct Hc as [[_ Hc]|(p & Hm & Hc)]; [by left|].
    destruct Hst as [Hn'|[i Hi]]; [congruence|]. rewrite Hm in Hi. injection Hi as ->.
    right. by exists i.
  - intros (sp & Hsp & Hn & Hcl). apply (CompileTermination.compile_stuck_iff _ _ Hu) in Hcl.
    unfold main, parse_args. rewrite Hsp. unfold run. cbn [source_pattern destination_template].
    unfold u8_try_from. rewrite decide_True by done. destruct Hcl as [Hc|[i Hc]]; rewrite Hc; eauto.
Qed.

(** C14. [main] reports every matched file exactly once, in the order of
    the directory listing, each with the destination the template gives
    its fragments: the pairs of the log are the matches of the source
    pattern mapped through [substitute]. *)
Theorem main_reports_every_match (s : Fs) (src dst : str) (force : bool) (s' : Fs)
    (code : nat) (log : list (str * str * move_outcome)) :
  main s src dst force = Some (Ok (s', code, log)) ->
  exists sp tpl wd ms,
    SourcePathPattern.from_str src = Ok sp /\
    DestinationPathTemplate.compile dst (SourcePathPattern.wildcards_number sp) = Some (Ok tpl) /\
    fs_current_dir s = Some wd /\
    SourcePathPattern.matching_files (fs_listing s) sp wd = Ok ms /\
    map (fun '(a, b, _) => (a, b)) log =
      map (fun '(a, frs) =>
             (a, path_join (DestinationPathTemplate.directory tpl)
                   (fill (DestinationPathTemplate.literal_blocks tpl)
                      (map (DestinationPathTemplate.fragment_for frs)
                         (DestinationPathTemplate.markers tpl))))) ms.
Proof using Type.
  intros H. destruct (main_Ok_steps _ _ _ _ _ _ _ H)
    as (sp & tpl & wd & ms & calc & failed & Hsp & Hc & Hwd & Hmf & Hsa & Hl).
  exists sp, tpl, wd, ms. do 4 (split; [done|]).
  destruct (rename_loop_log _ _ _ _ _ _ _ _ Hl) as (new & Hnew & <- & _). simpl in Hnew. subst new.
  apply substitute_all_eq; [|done]. apply (DestinationPathTemplate.compile_wf _ _ _ Hc).
Qed.

End WithFs.

(** ** A concrete file system: canonical absolute paths, a set of regular
    files and a set of directories.  It implements the interface and its
    laws, and runs the integration tests of [tests/test_main.rs]. *)

Record TestFs := mk_testfs { cwd : str; files : gset str; dirs : gset str }.

(** Resolve the components of a path: drop empty and ["."] components,
    let [".."] remove the previous one ([acc] is reversed). *)
Fixpoint resolve_components (acc : list str) (cs : list str) : list str :=
  match cs with
  | [] => acc
  | c :: rest =>
      if bool_decide (c = "" \/ c = ".") then resolve_components acc rest
      else if bool_decide (c = "..") then resolve_components (tail acc) rest
      else resolve_components (c :: acc) rest
  end.

(** The canonical absolute form of a path relative to [cwd]. *)
Definition canonical (cwd p : str) : str :=
  let absolute := if bool_decide (head p = Some slash_char) then p else cwd ++ "/" ++ p in
  join slash_char ("" :: reverse (resolve_components [] (split_char slash_char absolute))).

Definition parent (c : str) : str := take (pred (last_sep_split slash_char c)) c.
Definition base_name (c : str) : str := drop (last_sep_split slash_char c) c.

Definition testfs_listing (s : TestFs) : SourcePathPattern.FileSystem :=
  SourcePathPattern.mk_fs (fun path =>
    let c := canonical (cwd s) path in
    if bool_decide (c ∈ dirs s) then
      Some (map (fun f => Some (SourcePathPattern.mk_entry (base_name f) true
                                  (Some (SourcePathPattern.mk_metadata true))))
              (filter (fun f => parent f = c) (elements (files s)))
            ++ map (fun d => Some (SourcePathPattern.mk_entry (base_name d) true
                                     (Some (SourcePathPattern.mk_metadata false))))
              (filter (fun d => parent d = c /\ d <> c) (elements (dirs s))))
    else None).

Definition testfs_exists (s : TestFs) (p : str) : bool :=
  bool_decide ((canonical (cwd s) p ∈ files s) \/ (canonical (cwd s) p ∈ dirs s)).

(** [rename(2)]: the source must be a file, the destination must not be a
    directory and its parent must be one; an existing file is replaced. *)
Definition testfs_rename (s : TestFs) (a b : str) : option TestFs :=
  let ca := canonical (cwd s) a in
  let cb := canonical (cwd s) b in
  if bool_decide ((ca ∈ files s) /\ (cb ∉ dirs s) /\ (parent cb ∈ dirs s))
  then Some (mk_testfs (cwd s) ({[cb]} ∪ (files s ∖ {[ca]})) (dirs s))
  else None.

#[global] Instance testfs_ops : FileSystemOps TestFs := {|
  fs_current_dir s := Some (cwd s);
  fs_listing := testfs_listing;
  fs_exists := testfs_exists;
  fs_rename := testfs_rename
|}.

#[global] Instance testfs_laws : FileSystemLaws TestFs.
Proof.
  refine {| fs_files := files; fs_resolve s := canonical (cwd s) |}.
  - intros s p Hp. simpl. unfold testfs_exists. apply bool_decide_eq_true. by left.
  - intros s a b s'. simpl. unfold testfs_rename.
    case_bool_decide as Hc; [|done]. intros [= <-]. simpl. naive_solver.
Defined.

(** ** The integration tests of [tests/test_main.rs] *)

Module IntegrationTests.

Definition tmp_root : str := "/tmp/mmv-test".

Fixpoint ancestors (fuel : nat) (c : str) : list str :=
  match fuel with
  | 0 => []
  | S f => let p := parent c in if bool_decide (p = []) then [] else p :: ancestors f p
  end.

(** [generate_files] of [tests/common/mod.rs]: create every file (and its
    parent directories) and every directory under a fresh temporary root. *)
Definition generate_files (file_paths directory_paths : list str) : TestFs :=
  let fs := map (canonical tmp_root) file_paths in
  let ds := tmp_root :: map (canonical tmp_root) directory_paths in
  mk_testfs tmp_root (list_to_set fs)
    (list_to_set (ds ++ concat (map (fun c => ancestors (length c) c) (fs ++ ds)))).

Definition at_dir (s : TestFs) (d : str) : TestFs := mk_testfs (canonical (cwd s) d) (files s) (dirs s).

Definition exit_err_with (r : option (result main_error (TestFs * nat * list (str * str * move_outcome))))
    (e : main_error) : bool :=
  match r with Some (Err e') => bool_decide (e' = e) | _ => false end.

Definition count_outcome (o : move_outcome) (log : list (str * str * move_outcome)) : nat :=
  length (filter (fun '(_, _, o') => o' = o) log).

Definition exit_ok_with (r : option (result main_error (TestFs * nat * list (str * str * move_outcome))))
    (check : TestFs -> list (str * str * move_outcome) -> bool) : bool :=
  match r with Some (Ok (s', 0, log)) => check s' log | _ => false end.

Definition griffindor : list str :=
  map (fun name => "griffindor/" ++ name) ["Harry"; "Ron"; "Hermy"; "Neville"].

(** [fn test_main_simple] *)
Definition test_main_simple : bool :=
  let fs := generate_files griffindor ["expelled/"] in
  exit_ok_with (main fs "griffindor/H*y" "expelled/H#1y-#1" false) (fun s' log =>
    (length log =? 2) && (count_outcome Done log =? 2) &&
    testfs_exists s' "expelled/Harry-arr" && testfs_exists s' "expelled/Hermy-erm").

(** [fn test_into_same_directory] *)
Definition test_into_same_directory : bool :=
  let fs := generate_files ["Harry"; "Ron"; "Hermy"; "Neville"; "Hagrid"] [] in
  exit_ok_with (main fs "H*" "H#1-starts-with-H" false) (fun _ log =>
    count_outcome Done log =? 3).

(** [fn test_no_target_directory]: exit code 1 and the message. *)
Definition test_no_target_directory : bool :=
  let fs := at_dir (generate_files griffindor []) "griffindor" in
  exit_err_with (main fs "Neville" "hufflepuff/#1-is-dumb-sometimes" false)
    (TargetDirectoryMissing "hufflepuff/").

(** [fn test_no_matches_for_pattern] *)
Definition test_no_matches_for_pattern : bool :=
  let fs := at_dir (generate_files griffindor []) "griffindor" in
  exit_err_with (main fs "A*" "../A#1" false) (NoFilesMatching "A*").

(** [fn test_mmv_doesnt_overwrite_existing_file] *)
Definition test_mmv_doesnt_overwrite_existing_file : bool :=
  let fs := at_dir (generate_files (griffindor ++ map (fun name => "slytherin/" ++ name)
                                      ["Draco, Crabbe"; "Goyle"; "Harry"]) [])
                   "griffindor" in
  exit_ok_with (main fs "H*y" "../slytherin/H#1y" false) (fun s' log =>
    (count_outcome Skip log =? 1) && (count_outcome Done log =? 1) &&
    testfs_exists s' "Harry" && negb (testfs_exists s' "Hermy") &&
    testfs_exists s' "../slytherin/Hermy" && testfs_exists s' "../slytherin/Harry").

(** [fn test_force_flag] *)
Definition test_force_flag : bool :=
  let fs := generate_files
              (map (fun i => "png_images/" ++ u8_to_string i ++ ".png") (seq 1 19)
               ++ map (fun i => "jpg_images/" ++ u8_to_string i ++ ".jpg") (seq 10 20)) [] in
  exit_ok_with (main fs "png_images/*.png" "jpg_images/#1.jpg" true) (fun s' log =>
    (count_outcome Done log =? 19) &&
    match SourcePathPattern.read_dir (testfs_listing s') "png_images" with
    | Some [] => true | _ => false end &&
    forallb (fun i => testfs_exists s' ("jpg_images/" ++ u8_to_string i ++ ".jpg")) (seq 1 29)).

(** The model of [main] passes the six integration tests of
    [tests/test_main.rs] on the model of their temporary directories:
    renames and their printed outcomes, the skip of an existing
    destination, [--force], and the two error exits. *)
Example main_integration_tests_pass :
  test_main_simple && test_into_same_directory && test_no_target_directory
  && test_no_matches_for_pattern && test_mmv_doesnt_overwrite_existing_file
  && test_force_flag = true.
Proof. vm_compute. reflexivity. Qed.

End IntegrationTests.

(** ** Witnesses, on the scenarios of the integration tests *)

Definition slytherin_fs : TestFs :=
  IntegrationTests.at_dir
    (IntegrationTests.generate_files
       (IntegrationTests.griffindor
          ++ map (fun name => "slytherin/" ++ name) ["Draco, Crabbe"; "Goyle"; "Harry"]) [])
    "griffindor".

Definition griffindor_fs : TestFs :=
  IntegrationTests.at_dir (IntegrationTests.generate_files IntegrationTests.griffindor []) "griffindor".

Lemma main_reports_every_match_witness :
  exists s' code log,
    main slytherin_fs "H*y" "../slytherin/H#1y" false = Some (Ok (s', code, log)) /\
    map (fun '(a, b, _) => (a, b)) log
      = [("Harry", "../slytherin/Harry"); ("Hermy", "../slytherin/Hermy")].
Proof.
  destruct (main slytherin_fs "H*y" "../slytherin/H#1y" false) as [[[[s' code] log]|e]|] eqn:H;
    [|vm_compute in H; discriminate..].
  exists s', code, log. split; [reflexivity|].
  destruct (main_reports_every_match _ _ _ _ _ _ _ H) as (sp & tpl & wd & ms & Hsp & Hc & Hwd & Hmf & ->).
  vm_compute in Hsp, Hc, Hwd. injection Hsp as <-. injection Hc as <-. injection Hwd as <-.
  vm_compute in Hmf. injection Hmf as <-. reflexivity.
Defined.

Lemma main_no_loss_without_force_witness :
  exists s' code log,
    main slytherin_fs "H*y" "../slytherin/H#1y" false = Some (Ok (s', code, log)) /\
    size (fs_files s') = size (fs_files slytherin_fs).
Proof.
  destruct (main slytherin_fs "H*y" "../slytherin/H#1y" false) as [[[[s' code] log]|e]|] eqn:H;
    [|vm_compute in H; discriminate..].
  exists s', code, log. split; [reflexivity|].
  exact (main_no_loss_without_force _ _ _ _ _ _ H).
Defined.

Lemma main_exit_code_witness :
  exists s' code log,
    main slytherin_fs "H*y" "../slytherin/H#1y" false = Some (Ok (s', code, log)) /\
    (code = 0 \/ code = 1) /\ (code = 1 <-> exists a b, (a, b, Failed) ∈ log) /\ log <> [].
Proof.
  destruct (main slytherin_fs "H*y" "../slytherin/H#1y" false) as [[[[s' code] log]|e]|] eqn:H;
    [|vm_compute in H; discriminate..].
  exists s', code, log. split; [reflexivity|].
  exact (main_exit_code _ _ _ _ _ _ _ H).
Defined.

Lemma main_too_many_wildcards_witness :
  SourcePathPattern.from_str (concat (replicate 256 "*"))
    = Ok (SourcePathPattern.mk_source "" (GlobStarPattern.from (concat (replicate 256 "*")))) /\
  255 < SourcePathPattern.wildcards_number
          (SourcePathPattern.mk_source "" (GlobStarPattern.from (concat (replicate 256 "*")))) /\
  main griffindor_fs (concat (replicate 256 "*")) "#1" false = Some (Err TooManyWildcards).
Proof.
  assert (H1 : SourcePathPattern.from_str (concat (replicate 256 "*"))
    = Ok (SourcePathPattern.mk_source "" (GlobStarPattern.from (concat (replicate 256 "*")))))
    by (vm_compute; reflexivity).
  assert (H2 : 255 < SourcePathPattern.wildcards_number
          (SourcePathPattern.mk_source "" (GlobStarPattern.from (concat (replicate 256 "*")))))
    by (vm_compute; lia).
  split; [exact H1|]. split; [exact H2|]. exact (main_too_many_wildcards _ _ _ _ _ H1 H2).
Defined.

Lemma main_no_files_matching_witness :
  main griffindor_fs "A*" "../A#1" false = Some (Err (NoFilesMatching "A*")).
Proof.
  apply (main_no_files_matching _ _ _ _ (SourcePathPattern.mk_source "" (GlobStarPattern.from "A*"))
           (DestinationPathTemplate.mk_template "../" [1] ["A"; ""]) "/tmp/mmv-test/griffindor");
    vm_compute; first [reflexivity | lia].
Defined.

Lemma main_hangs_iff_witness :
  utf8 "expelled/H#1y##" = true /\
  (main griffindor_fs "H*y" "expelled/H#1y##" false = None \/
   exists i, main griffindor_fs "H*y" "expelled/H#1y##" false =
     Some (Err (CompilePanic (DestinationPathTemplate.NotCharBoundary i)))).
Proof.
  assert (Hu : utf8 "expelled/H#1y##" = true) by (vm_compute; reflexivity).
  split; [exact Hu|].
  apply (main_hangs_iff _ _ _ _ Hu).
  exists (SourcePathPattern.mk_source "" (GlobStarPattern.from "H*y")).
  split; [vm_compute; reflexivity|]. split; [vm_compute; lia|].
  apply CompileTermination.double_miss_iff. vm_compute. reflexivity.
Defined.

End Mmv.
