(* ===== verification/RenameSpec.v ===== *)
(** * What the rename loop of [main] does, abstractly (src/src/main.rs, lines 78-93)

    An abstract specification of the [for (source, destination) in ...]
    loop as a nondeterministic state machine over the set of files (by
    canonical path): each pair is skipped (without [--force], when the
    destination is reported to exist), fails (the file system refuses; the
    set is unchanged), or is done (the source was a file, the destination
    was not, unless [--force]; the source's path leaves the set and the
    destination's enters it).  The machine leaves open what the operating
    system decides (a failure, an existing directory), so it specifies
    every file system that satisfies [FileSystemLaws].

    The theorems: the loop of [main] is a run of the machine (refinement),
    and, by rule induction on runs, [main] touches no file that is neither
    the source nor the destination of one of its renames. *)

From S2P Require Import Prelude RustStr GlobStarPattern DestinationPathTemplate CompileTermination SourcePathPattern Mmv.

Module RenameSpec.
Import Mmv.

(** The state of the loop: the set of files, the pairs still to do, the
    failure flag and the log. *)
Record batch := mk_batch {
  b_files : gset str;
  b_todo : list (str * str);
  b_failed : bool;
  b_log : list (str * str * move_outcome)
}.

Section Machine.
Variable force : bool.
Variable resolve : str -> str.

Inductive batch_step : batch -> batch -> Prop :=
  | step_skip fs a b ps fl lg :
      force = false ->
      batch_step (mk_batch fs ((a, b) :: ps) fl lg) (mk_batch fs ps fl (lg ++ [(a, b, Skip)]))
  | step_failed fs a b ps fl lg :
      force = true \/ resolve b ∉ fs ->
      batch_step (mk_batch fs ((a, b) :: ps) fl lg) (mk_batch fs ps true (lg ++ [(a, b, Failed)]))
  | step_done fs a b ps fl lg :
      force = true \/ resolve b ∉ fs -> resolve a ∈ fs ->
      batch_step (mk_batch fs ((a, b) :: ps) fl lg)
        (mk_batch ({[resolve b]} ∪ (fs ∖ {[resolve a]})) ps fl (lg ++ [(a, b, Done)])).

Definition batch_run : batch -> batch -> Prop := rtc batch_step.

End Machine.

#[export] Hint Constructors batch_step : mmv.

(** The canonical paths of the sources and destinations a log names. *)
Definition touched_paths (resolve : str -> str) (log : list (str * str * move_outcome))
    : list str :=
  concat (map (fun '(a, b, _) => [resolve a; resolve b]) log).

Definition pair_paths (resolve : str -> str) (pairs : list (str * str)) : list str :=
  concat (map (fun '(a, b) => [resolve a; resolve b]) pairs).

(** ** Runs of the machine *)

Lemma pair_paths_cons resolve a b ps f :
  f ∉ pair_paths resolve ((a, b) :: ps) ->
  f <> resolve a /\ f <> resolve b /\ f ∉ pair_paths resolve ps.
Proof. unfold pair_paths. simpl. set_solver. Qed.

(** Frame: a path no remaining pair names is a file after the run exactly
    when it was before. *)
Lemma batch_run_frame force resolve x y f :
  batch_run force resolve x y -> f ∉ pair_paths resolve (b_todo x) ->
  (f ∈ b_files y <-> f ∈ b_files x).
Proof.
  induction 1 as [x|x y z Hxy Hyz IH]; intros Hf; [done|].
  inversion Hxy as [fs a b ps fl lg ? | fs a b ps fl lg ? | fs a b ps fl lg ? ?]; subst;
    simpl in *; apply pair_paths_cons in Hf as (Ha & Hb & Hps); rewrite IH by done;
    [done|done|set_solver].
Qed.

Lemma pair_paths_log resolve log :
  pair_paths resolve (map (fun '(a, b, _) => (a, b)) log) = touched_paths resolve log.
Proof.
  induction log as [|[[a b] o] log IH]; [done|]. unfold pair_paths, touched_paths in *.
  simpl. by rewrite IH.
Qed.

(** ** The loop of [main] refines the machine *)

Section Refinement.
Context {Fs : Type} `{!FileSystemOps Fs} {HL : FileSystemLaws Fs}.

(** A destination [main] does not see as existing is not a file. *)
Lemma not_exists_not_file (s : Fs) b : fs_exists s b = false -> fs_resolve s b ∉ fs_files s.
Proof using HL. intros Hb Hin. apply fs_exists_files in Hin. congruence. Qed.

Lemma rename_loop_batch force (s : Fs) pairs failed log s' failed' log' :
  rename_loop force s pairs failed log = (s', failed', log') ->
  fs_resolve s' = fs_resolve s /\
  batch_run force (fs_resolve s) (mk_batch (fs_files s) pairs failed log)
    (mk_batch (fs_files s') [] failed' log').
Proof using HL.
  revert s failed log. induction pairs as [|[a b] pairs IH]; intros s failed log H;
    simpl in H; [injection H as <- <- <-; split; [done|apply rtc_refl]|].
  destruct (negb force && fs_exists s b) eqn:Hskip.
  - apply andb_true_iff in Hskip as [Hf _]. apply negb_true_iff in Hf.
    destruct (IH _ _ _ H) as [Hr Hrun]. split; [done|]. eapply rtc_l; [|exact Hrun].
    by constructor.
  - assert (Hdst : force = true \/ fs_resolve s b ∉ fs_files s).
    { destruct force; [by left|right]. by apply not_exists_not_file. }
    destruct (fs_rename s a b) as [s1|] eqn:Hr.
    + destruct (fs_rename_files _ _ _ _ Hr) as (Ha & Hfiles & Hres1).
      destruct (IH _ _ _ H) as [Hr' Hrun]. rewrite Hres1 in Hr', Hrun.
      split; [done|]. eapply rtc_l; [|exact Hrun]. rewrite Hfiles. by constructor.
    + destruct (IH _ _ _ H) as [Hr' Hrun]. split; [done|].
      eapply rtc_l; [|exact Hrun]. by constructor.
Qed.

(** C12. Refinement: every successful run of [main] renames the files as
    a run of the abstract batch-rename machine does, over a non-empty
    list of pairs, and exits with 1 exactly when the run sets the failure
    flag. *)
Theorem main_refines_batch (s : Fs) (src dst : str) (force : bool) (s' : Fs) (code : nat)
    (log : list (str * str * move_outcome)) :
  main s src dst force = Some (Ok (s', code, log)) ->
  exists pairs failed, pairs <> [] /\
    batch_run force (fs_resolve s) (mk_batch (fs_files s) pairs false [])
      (mk_batch (fs_files s') [] failed log) /\
    code = (if failed then 1 else 0).
Proof using HL.
  intros H. destruct (main_Ok_inv _ _ _ _ _ _ _ H) as (calc & failed & Hne & Hl & ->).
  exists calc, failed. split; [done|]. split; [|done].
  by apply (rename_loop_batch _ _ _ _ _ _ _ _ Hl).
Qed.

(** C11. Frame: [main] changes nothing but the sources and destinations
    of the pairs it reports; any other path is a file after the run
    exactly when it was before. *)
Theorem main_frame (s : Fs) (src dst : str) (force : bool) (s' : Fs) (code : nat)
    (log : list (str * str * move_outcome)) (f : str) :
  main s src dst force = Some (Ok (s', code, log)) ->
  f ∉ touched_paths (fs_resolve s) log ->
  (f ∈ fs_files s' <-> f ∈ fs_files s).
Proof using HL.
  intros H Hf. destruct (main_Ok_inv _ _ _ _ _ _ _ H) as (calc & failed & _ & Hl & _).
  destruct (rename_loop_log _ _ _ _ _ _ _ _ Hl) as (new & Hnew & Hmap & _).
  simpl in Hnew. subst new.
  apply (batch_run_frame force (fs_resolve s) (mk_batch (fs_files s) calc false [])
           (mk_batch (fs_files s') [] failed log));
    [apply (rename_loop_batch _ _ _ _ _ _ _ _ Hl)|].
  simpl. by rewrite <-Hmap, pair_paths_log.
Qed.

End Refinement.

(** ** Witnesses *)

Lemma main_refines_batch_witness :
  exists s' code log,
    main slytherin_fs "H*y" "../slytherin/H#1y" false = Some (Ok (s', code, log)) /\
    exists pairs failed, pairs <> [] /\
      batch_run false (fs_resolve slytherin_fs) (mk_batch (fs_files slytherin_fs) pairs false [])
        (mk_batch (fs_files s') [] failed log) /\ code = (if failed then 1 else 0).
Proof.
  destruct (main slytherin_fs "H*y" "../slytherin/H#1y" false) as [[[[s' code] log]|e]|] eqn:H;
    [|vm_compute in H; discriminate..].
  exists s', code, log. split; [reflexivity|].
  exact (main_refines_batch _ _ _ _ _ _ _ H).
Defined.

Lemma main_frame_witness :
  exists s' code log,
    main slytherin_fs "H*y" "../slytherin/H#1y" false = Some (Ok (s', code, log)) /\
    ("/tmp/mmv-test/slytherin/Goyle" ∉ touched_paths (fs_resolve slytherin_fs) log) /\
    ("/tmp/mmv-test/slytherin/Goyle" ∈ fs_files s' <->
     "/tmp/mmv-test/slytherin/Goyle" ∈ fs_files slytherin_fs).
Proof.
  destruct (main slytherin_fs "H*y" "../slytherin/H#1y" false) as [[[[s' code] log]|e]|] eqn:H;
    [|vm_compute in H; discriminate..].
  pose proof H as H'. vm_compute in H'. injection H' as _ _ Hlog.
  assert (Hf : "/tmp/mmv-test/slytherin/Goyle" ∉ touched_paths (fs_resolve slytherin_fs) log).
  { rewrite <-Hlog. apply (bool_decide_unpack _). vm_compute. reflexivity. }
  exists s', code, log. split; [reflexivity|]. split; [exact Hf|].
  exact (main_frame _ _ _ _ _ _ _ _ H Hf).
Defined.

End RenameSpec.
