(* ===== verification/MainPaths.v ===== *)
(** * Where [main] moves files (src/src/main.rs, lines 33-57, with the
    library calls it makes)

    The sources [main] renames are the matched files of the source
    pattern's directory, and the destinations are
    [directory.join(result_filename)] for the template's directory
    (src/lib/src/destination_path_template.rs, line 94).  A file name the
    operating system lists never contains ['/'], the captured fragments
    are pieces of such a name (src/lib/src/glob_star_pattern.rs), and the
    literal blocks of a compiled template come from the text after its
    last ['/'].  So every rename stays inside the two directories the
    user wrote: the fragments cannot inject a path separator, and
    [Path::join] never meets an absolute name that would replace the
    directory.  The name is a single component, but it can be empty,
    ["."] or [".."] ([dot_dot_destination]): the destination is then the
    target directory or its parent, which exist, so the rename is skipped
    or refused by the operating system. *)

From S2P Require Import Prelude RustStr GlobStarPattern DestinationPathTemplate CompileTermination SourcePathPattern Mmv.

Module MainPaths.
Import Mmv.

(** The listing names no entry with a ['/'] in its name, as
    [std::fs::read_dir] guarantees on Unix. *)
Definition listing_names_ok (fs : SourcePathPattern.FileSystem) : Prop :=
  forall d es e, SourcePathPattern.read_dir fs d = Some es -> Some e ∈ es ->
  slash_char ∉ SourcePathPattern.file_name e.

(** [p] is [dir.join(name)] for a single path component [name]. *)
Definition in_dir (dir p : str) : Prop :=
  exists name, (slash_char ∉ name) /\ p = path_join dir name.

(** ** Lemmas *)

(** The fragments [substitute] puts in place of in-range markers are
    fragments it was given. *)
Lemma fragments_for_no_sep (x : ascii) (frs : list str) (ms : list nat) :
  Forall (fun c => x ∉ c) frs -> Forall (fun m => 1 <= m <= length frs) ms ->
  Forall (fun c => x ∉ c) (map (DestinationPathTemplate.fragment_for frs) ms).
Proof.
  intros Hfrs Hms. apply Forall_forall. intros c Hc.
  apply elem_of_map_1 in Hc as (m & -> & Hm).
  apply Forall_forall with (x := m) in Hms; [|done].
  apply Forall_forall with (x := frs !!! (m - 1)) in Hfrs; [done|].
  apply list_elem_of_lookup_total_2. lia.
Qed.

(** A selected entry is a file of the pattern's directory whose name the
    glob matched. *)
Lemma select_entry_glob (sp : Source) e a frs :
  SourcePathPattern.select_entry sp e = Some (a, frs) ->
  a = path_join (SourcePathPattern.directory sp) (SourcePathPattern.file_name e) /\
  GlobStarPattern.match_string (SourcePathPattern.filename_pattern sp)
    (SourcePathPattern.file_name e) = Some frs.
Proof.
  unfold SourcePathPattern.select_entry.
  destruct (SourcePathPattern.metadata e) as [m|]; [|done].
  destruct (_ && _); [|done]. intros (mi & Hmi & [= -> ->])%fmap_Some. done.
Qed.

(** ** The theorem *)

Section Paths.
Context {Fs : Type} `{!FileSystemOps Fs}.

(** C13. Every rename [main] performs moves a file of the source pattern's
    directory to a path of the destination template's directory: the
    source is [dir.join(name)] and the destination [dir'.join(name')] for
    names without ['/'], where [dir] and [dir'] are the text of the two
    patterns up to their last ['/'] (given that listed names contain no
    ['/']). *)
Theorem main_paths (s : Fs) (src dst : str) (force : bool) (s' : Fs) (code : nat)
    (log : list (str * str * move_outcome)) (a b : str) (o : move_outcome) :
  main s src dst force = Some (Ok (s', code, log)) ->
  listing_names_ok (fs_listing s) -> (a, b, o) ∈ log ->
  in_dir (take (last_sep_split slash_char src) src) a /\
  in_dir (take (last_sep_split slash_char dst) dst) b.
Proof.
  intros H Hn Hin.
  destruct (main_Ok_steps _ _ _ _ _ _ _ H)
    as (sp & tpl & wd & ms & calc & failed & Hsp & Hc & _ & Hmf & Hsa & Hl).
  destruct (rename_loop_log _ _ _ _ _ _ _ _ Hl) as (new & Hnew & Hmap & _).
  simpl in Hnew. subst new.
  assert (Hab : (a, b) ∈ calc)
    by (rewrite <-Hmap; exact (elem_of_map_2 (fun '(a, b, _) => (a, b)) log (a, b, o) Hin)).
  destruct (substitute_all_elem _ _ _ _ _ Hsa Hab) as (frs & Hafrs & Hsub).
  destruct (SourcePathPattern.matching_files_elem _ _ _ _ _ Hmf Hafrs)
    as (es & e & Hrd & He & Hsel).
  pose proof (Hn _ _ _ Hrd He) as Hname.
  destruct (select_entry_glob _ _ _ _ Hsel) as [-> Hmatch].
  rewrite SourcePathPattern.from_str_eq in Hsp.
  destruct (contains _ _); [done|]. injection Hsp as <-.
  split; [by exists (SourcePathPattern.file_name e)|].
  destruct (DestinationPathTemplate.compile_paths _ _ _ Hc) as [Hdir Hblocks].
  destruct (DestinationPathTemplate.compile_wf _ _ _ Hc) as [Hlen _].
  destruct (DestinationPathTemplate.substitute_Ok_eq _ _ _ Hlen Hsub) as [-> Hrange].
  rewrite <-Hdir. eexists. split; [|reflexivity].
  apply fill_not_elem; [done|]. apply fragments_for_no_sep; [|done].
  apply Forall_forall. intros c Hc' Hx. apply Hname.
  exact (GlobStarPattern.match_string_fragment_elem _ _ _ c _ Hmatch Hc' Hx).
Qed.

End Paths.

(** The test file system lists base names, which hold no ['/']. *)
Lemma testfs_listing_names_ok (s : TestFs) : listing_names_ok (fs_listing s).
Proof.
  intros d es e. cbn [fs_listing testfs_ops testfs_listing SourcePathPattern.read_dir].
  case_bool_decide; [|done]. intros [= <-] He.
  apply elem_of_app in He as [He|He]; apply elem_of_map_1 in He as (f & [= ->] & _);
    apply last_sep_split_file.
Qed.

(** The destination's name can be [".."]: a file [".x"] matched by
    ["*x"] gives the fragment ["."], and the template ["out/#1#1"] turns
    it into the destination ["out/.."], the parent of the target
    directory. *)
Lemma dot_dot_destination :
  GlobStarPattern.match_string (GlobStarPattern.from "*x") ".x" = Some ["."] /\
  exists tpl, DestinationPathTemplate.compile "out/#1#1" 1 = Some (Ok tpl) /\
    DestinationPathTemplate.substitute tpl ["."] = Ok "out/..".
Proof.
  split; [vm_compute; reflexivity|]. eexists. split; vm_compute; reflexivity.
Qed.

Lemma main_paths_witness :
  exists s' code log,
    main slytherin_fs "H*y" "../slytherin/H#1y" false = Some (Ok (s', code, log)) /\
    listing_names_ok (fs_listing slytherin_fs) /\
    (("Hermy", "../slytherin/Hermy", Done) ∈ log) /\
    in_dir "" "Hermy" /\ in_dir "../slytherin/" "../slytherin/Hermy".
Proof.
  destruct (main slytherin_fs "H*y" "../slytherin/H#1y" false) as [[[[s' code] log]|e]|] eqn:H;
    [|vm_compute in H; discriminate..].
  pose proof H as H'. vm_compute in H'. injection H' as _ _ Hlog.
  assert (Hin : ("Hermy", "../slytherin/Hermy", Done) ∈ log).
  { rewrite <-Hlog. apply (bool_decide_unpack _). vm_compute. reflexivity. }
  pose proof (testfs_listing_names_ok slytherin_fs) as Hn.
  exists s', code, log. split; [reflexivity|]. split; [exact Hn|]. split; [exact Hin|].
  exact (main_paths _ _ _ _ _ _ _ _ _ _ H Hn Hin).
Defined.

End MainPaths.
